(** * saggitarius-typing: the runtime type registry of [typing.ts]

    A shallow embedding of the module [typing.ts] (with the seed list
    [primitives.ts]) and the properties of its registry, parser,
    interner, value cache and resolver.

    The module works on the JavaScript object heap: types are objects
    that own a private symbol, the registry is a [Map], the interner is
    a tree of plain objects keyed by symbols, and the value cache is a
    hidden property of the value itself.  The embedding keeps that heap:
    objects with a prototype, an extensibility flag and own data
    properties with their attributes; every function of the module is a
    state transformer that returns a value or throws. *)

From Stdlib Require Import ZArith String Ascii List Bool Lia.
From stdpp Require Import base option list strings.
Import ListNotations.

Local Open Scope string_scope.
Local Open Scope list_scope.

(** ** Values and objects *)

(** Objects are named by their place in the heap. *)
Abbreviation loc := nat (only parsing).

(** The language values.  A number is kept as an integer: no function of
    the module computes with numbers, only [typeof] and truthiness look
    at them. *)
Inductive value :=
| VUndefined
| VNull
| VBoolean (b : bool)
| VNumber (z : Z)
| VBigInt (z : Z)
| VString (s : string)
| VSymbol (n : nat)
| VObject (l : loc).

#[global] Instance value_eq_dec : EqDecision value.
Proof. solve_decision. Defined.

(** Property keys are strings or symbols. *)
Inductive propkey :=
| KString (s : string)
| KSymbol (n : nat).

#[global] Instance propkey_eq_dec : EqDecision propkey.
Proof. solve_decision. Defined.

(** A data property with its attributes.  Accessor properties run user
    code and are outside the embedding. *)
Record property := Property {
  p_value : value;
  p_writable : bool;
  p_enumerable : bool;
  p_configurable : bool
}.

(** What [typeof] and [Array.isArray] see of an object.  The elements of
    an array are kept in [items]; its other own properties are in
    [o_props] like those of any object. *)
Inductive objkind :=
| Ordinary
| Callable
| ArrayObj (items : list value).

Record object := Object {
  o_proto : option loc;            (* [None] is the null prototype *)
  o_kind : objkind;
  o_extensible : bool;
  o_props : list (propkey * property)   (* own properties, in creation order *)
}.

(** ** Association lists: own properties and the [Map] of names *)

Section Assoc.
Context {K V : Type} `{EqDecision K}.

Fixpoint assoc_get (k : K) (m : list (K * V)) : option V :=
  match m with
  | [] => None
  | (k', v) :: m' => if decide (k = k') then Some v else assoc_get k m'
  end.

(** Update in place when the key is present, append otherwise (the
    insertion order of a [Map] and of an object's own keys). *)
Fixpoint assoc_set (k : K) (v : V) (m : list (K * V)) : list (K * V) :=
  match m with
  | [] => [(k, v)]
  | (k', v') :: m' =>
      if decide (k = k') then (k, v) :: m' else (k', v') :: assoc_set k v m'
  end.

End Assoc.

(** ** Symbols

    The module's four private symbols and the host's [Symbol.toStringTag]
    take the first five symbol numbers; [Symbol()] in [create] draws the
    next unused one from the state. *)

Definition TypeSignature : nat := 0.
Definition TypeReference : nat := 1.
Definition TypeArguments : nat := 2.
Definition CachedType : nat := 3.
Definition Symbol_toStringTag : nat := 4.
Definition first_fresh_symbol : nat := 5.

(** ** State of the module, outcomes and the monad of its functions *)

(** The exports of [primitives.ts]; each is [undefined] until that file
    has run. *)
Record PrimitivesModule := {
  P_String : value;
  P_Number : value;
  P_Bigint : value;
  P_Boolean : value;
  P_Undefined : value;
  P_Symbol : value;
  P_Object : value;
  P_Array : value;
  P_Function : value;
  P_Unknown : value;
  P_Type : value;
  P_Void : value
}.

(** The object heap, the symbol counter, the module constant [Names]
    and the primitives.  [Names] is a [Map<string, Type>], in insertion
    order: its values are objects; its keys are kept as values, since
    [named] is also called with the [name] property of a function.  The
    module constant [ComplexMap] is an object of the heap, at
    [ComplexMap] below. *)
Record state := State {
  heap : list object;
  next_symbol : nat;
  Names : list (value * loc);
  Primitives : PrimitivesModule
}.

(** What a call can throw.  [TypeError] is the host's; the module's own
    [Error("Invalid type reference ...")] keeps the reference instead of
    the message text.  [Unsupported] marks a run that leaves the
    embedded fragment (a property of a primitive's wrapper, a string
    conversion done by user code, a reference outside the heap, a
    prototype chain that does not end); [OutOfFuel] is the recursion
    bound of [parse]. *)
Inductive error :=
| TypeError
| InvalidTypeReference (ref : value)
| Unsupported
| OutOfFuel.

Inductive outcome (A : Type) :=
| Ok (a : A)
| Throw (e : error).
Arguments Ok {A} a.
Arguments Throw {A} e.

Definition M (A : Type) := state -> outcome A * state.

Definition ret {A} (a : A) : M A := fun s => (Ok a, s).
Definition throw {A} (e : error) : M A := fun s => (Throw e, s).
Definition bind {A B} (c : M A) (k : A -> M B) : M B :=
  fun s => match c s with
           | (Ok a, s') => k a s'
           | (Throw e, s') => (Throw e, s')
           end.
Definition read {A} (f : state -> A) : M A := fun s => (Ok (f s), s).

Notation "'let*' x ':=' c 'in' k" := (bind c (fun x => k))
  (at level 10, x name, c at level 100, k at level 200, only parsing).

(** [xs.map(f)], left to right, stopping at a throw. *)
Fixpoint mapM {A B} (f : A -> M B) (xs : list A) : M (list B) :=
  match xs with
  | [] => ret []
  | x :: xs' => let* y := f x in let* ys := mapM f xs' in ret (y :: ys)
  end.

(** ** The host operations the module uses *)

Definition truthy (v : value) : bool :=
  match v with
  | VUndefined | VNull => false
  | VBoolean b => b
  | VNumber z | VBigInt z => negb (Z.eqb z 0)
  | VString s => negb (String.eqb s "")
  | VSymbol _ | VObject _ => true
  end.

Definition typeof (h : list object) (v : value) : string :=
  match v with
  | VUndefined => "undefined"
  | VNull => "object"
  | VBoolean _ => "boolean"
  | VNumber _ => "number"
  | VBigInt _ => "bigint"
  | VString _ => "string"
  | VSymbol _ => "symbol"
  | VObject l =>
      match h !! l with
      | Some (Object _ Callable _ _) => "function"
      | _ => "object"
      end
  end.

Definition is_digit (c : ascii) : bool :=
  let n := nat_of_ascii c in (48 <=? n)%nat && (n <=? 57)%nat.

Fixpoint all_digits (s : string) : bool :=
  match s with
  | EmptyString => true
  | String c s' => is_digit c && all_digits s'
  end.

(** The keys an array answers from its elements ([items]) rather than
    from [o_props]: reading them by key is not embedded. *)
Definition array_key (o : object) (k : propkey) : bool :=
  match o_kind o, k with
  | ArrayObj _, KString s =>
      String.eqb s "length" || (negb (String.eqb s "") && all_digits s)
  | _, _ => false
  end.

Definition own_property (o : object) (k : propkey) : option property :=
  assoc_get k (o_props o).

(** [O.[[Get]](k)]: the own data property, else the prototype's. *)
Fixpoint get_from (fuel : nat) (h : list object) (l : loc) (k : propkey)
  : outcome value :=
  match fuel with
  | 0 => Throw Unsupported
  | S fuel' =>
      match h !! l with
      | None => Throw Unsupported
      | Some o =>
          if array_key o k then Throw Unsupported else
          match own_property o k with
          | Some p => Ok (p_value p)
          | None =>
              match o_proto o with
              | None => Ok VUndefined
              | Some l' => get_from fuel' h l' k
              end
          end
      end
  end.

Definition get_object (h : list object) (l : loc) (k : propkey) : outcome value :=
  get_from (S (length h)) h l k.

(** [v[k]] for any value [v]. *)
Definition get_value (v : value) (k : propkey) : M value :=
  fun s =>
    match v with
    | VUndefined | VNull => (Throw TypeError, s)
    | VObject l => (get_object (heap s) l k, s)
    | _ => (Throw Unsupported, s)
    end.

(** [Reflect.get(v, k)]: the target must be an object. *)
Definition Reflect_get (v : value) (k : propkey) : M value :=
  fun s =>
    match v with
    | VObject l => (get_object (heap s) l k, s)
    | _ => (Throw TypeError, s)
    end.

(** [k in v] for an object [v] ([HasProperty]). *)
Fixpoint has_from (fuel : nat) (h : list object) (l : loc) (k : propkey)
  : outcome bool :=
  match fuel with
  | 0 => Throw Unsupported
  | S fuel' =>
      match h !! l with
      | None => Throw Unsupported
      | Some o =>
          if array_key o k then Throw Unsupported else
          match own_property o k with
          | Some _ => Ok true
          | None =>
              match o_proto o with
              | None => Ok false
              | Some l' => has_from fuel' h l' k
              end
          end
      end
  end.

Definition has_property (v : value) (k : propkey) : M bool :=
  fun s =>
    match v with
    | VObject l => (has_from (S (length (heap s))) (heap s) l k, s)
    | _ => (Throw TypeError, s)
    end.

Definition set_props (o : object) (ps : list (propkey * property)) : object :=
  Object (o_proto o) (o_kind o) (o_extensible o) ps.

(** [ValidateAndApplyPropertyDescriptor] for a data descriptor with all
    four fields present; [None] when the definition is rejected. *)
Definition define_own (o : object) (k : propkey) (d : property) : option object :=
  match own_property o k with
  | None =>
      if o_extensible o then Some (set_props o (assoc_set k d (o_props o)))
      else None
  | Some cur =>
      if p_configurable cur then Some (set_props o (assoc_set k d (o_props o)))
      else if p_configurable d then None
      else if negb (Bool.eqb (p_enumerable d) (p_enumerable cur)) then None
      else if p_writable cur then Some (set_props o (assoc_set k d (o_props o)))
      else if p_writable d then None
      else if decide (p_value d = p_value cur) then Some o
      else None
  end.

(** [Reflect.defineProperty(v, k, d)]: [true] or [false], never a throw
    on an object. *)
Definition Reflect_defineProperty (v : value) (k : propkey) (d : property)
  : M bool :=
  fun s =>
    match v with
    | VObject l =>
        match heap s !! l with
        | None => (Throw Unsupported, s)
        | Some o =>
            match define_own o k d with
            | Some o' =>
                (Ok true,
                 State (<[l := o']> (heap s)) (next_symbol s) (Names s) (Primitives s))
            | None => (Ok false, s)
            end
        end
    | _ => (Throw TypeError, s)
    end.

(** The descriptor every [Reflect.defineProperty] of the module passes:
    not configurable, not enumerable, not writable. *)
Definition hidden (v : value) : property := Property v false false false.

(** [Reflect.getOwnPropertyDescriptor(v, k)]. *)
Definition Reflect_getOwnPropertyDescriptor (v : value) (k : propkey)
  : M (option property) :=
  fun s =>
    match v with
    | VObject l =>
        match heap s !! l with
        | None => (Throw Unsupported, s)
        | Some o => (Ok (own_property o k), s)
        end
    | _ => (Throw TypeError, s)
    end.

(** [Reflect.getPrototypeOf(v)]. *)
Definition Reflect_getPrototypeOf (v : value) : M value :=
  fun s =>
    match v with
    | VObject l =>
        match heap s !! l with
        | None => (Throw Unsupported, s)
        | Some o =>
            (Ok (match o_proto o with Some p => VObject p | None => VNull end), s)
        end
    | _ => (Throw TypeError, s)
    end.

(** Whether a property found on the prototype chain from [p] upwards
    lets an assignment create an own property on the receiver: it does
    unless the inherited property is not writable. *)
Fixpoint inherited_writable (fuel : nat) (h : list object) (p : option loc)
  (k : propkey) : outcome bool :=
  match p with
  | None => Ok true
  | Some l =>
      match fuel with
      | 0 => Throw Unsupported
      | S fuel' =>
          match h !! l with
          | None => Throw Unsupported
          | Some o =>
              if array_key o k then Throw Unsupported else
              match own_property o k with
              | Some q => Ok (p_writable q)
              | None => inherited_writable fuel' h (o_proto o) k
              end
          end
      end
  end.

(** [O.[[Set]](k, x)] with [O] as the receiver, in strict code: a
    rejected assignment throws a [TypeError]. *)
Definition set_object (h : list object) (l : loc) (k : propkey) (x : value)
  : outcome (list object) :=
  match h !! l with
  | None => Throw Unsupported
  | Some o =>
      if array_key o k then Throw Unsupported else
      match own_property o k with
      | Some cur =>
          if p_writable cur
          then Ok (<[l := set_props o
                      (assoc_set k (Property x true (p_enumerable cur) (p_configurable cur))
                         (o_props o))]> h)
          else Throw TypeError
      | None =>
          match inherited_writable (length h) h (o_proto o) k with
          | Throw e => Throw e
          | Ok w =>
              if w && o_extensible o
              then Ok (<[l := set_props o
                          (assoc_set k (Property x true true true) (o_props o))]> h)
              else Throw TypeError
          end
      end
  end.

(** The assignment [v[k] = x]. *)
Definition set_value (v : value) (k : propkey) (x : value) : M unit :=
  fun s =>
    match v with
    | VObject l =>
        match set_object (heap s) l k x with
        | Ok h' => (Ok tt, State h' (next_symbol s) (Names s) (Primitives s))
        | Throw e => (Throw e, s)
        end
    | _ => (Throw TypeError, s)
    end.

(** [Object.assign(target, source)] for a literal [source] given by its
    entries: each is assigned in turn.  On a primitive target the
    assignments go to a wrapper that is dropped. *)
Fixpoint assign_entries (target : value) (source : list (string * value)) : M unit :=
  match source with
  | [] => ret tt
  | (k, x) :: rest =>
      let* _ := set_value target (KString k) x in
      assign_entries target rest
  end.

Definition Object_assign (target : value) (source : list (string * value)) : M unit :=
  match target with
  | VUndefined | VNull => throw TypeError
  | VObject _ => assign_entries target source
  | _ => ret tt
  end.

(** [ToPropertyKey] of a computed member access.  The key [__proto__]
    is an accessor of [Object.prototype]: reading or writing through it
    is not embedded. *)
Definition to_property_key (v : value) : M propkey :=
  match v with
  | VSymbol n => ret (KSymbol n)
  | VString s => if String.eqb s "__proto__" then throw Unsupported else ret (KString s)
  | VUndefined => ret (KString "undefined")
  | VNull => ret (KString "null")
  | VBoolean true => ret (KString "true")
  | VBoolean false => ret (KString "false")
  | VNumber _ | VBigInt _ | VObject _ => throw Unsupported
  end.

(** [ToString] of a template literal. *)
Definition to_string (v : value) : M string :=
  match v with
  | VString s => ret s
  | VUndefined => ret "undefined"
  | VNull => ret "null"
  | VBoolean true => ret "true"
  | VBoolean false => ret "false"
  | VSymbol _ => throw TypeError
  | VNumber _ | VBigInt _ | VObject _ => throw Unsupported
  end.

Fixpoint join_strings (sep : string) (xs : list string) : string :=
  match xs with
  | [] => ""
  | [x] => x
  | x :: rest => x ++ sep ++ join_strings sep rest
  end.

(** [xs.join(sep)]: [undefined] and [null] give the empty string. *)
Definition join (sep : string) (xs : list value) : M string :=
  let* parts := mapM (fun x => match x with
                               | VUndefined | VNull => ret ""
                               | _ => to_string x
                               end) xs in
  ret (join_strings sep parts).

(** ** The host's objects

    The objects of the host that the module names or reaches, at fixed
    places of the heap, followed by the module's own [ComplexMap]. *)

Definition Object_prototype : loc := 0.
Definition Function_prototype : loc := 1.
Definition host_Object : loc := 2.
Definition host_Function : loc := 3.
Definition host_String : loc := 4.
Definition host_Number : loc := 5.
Definition host_Boolean : loc := 6.
Definition host_Symbol : loc := 7.
Definition host_Array : loc := 8.
Definition Array_prototype : loc := 9.
Definition ComplexMap : loc := 21.

Definition alloc (o : object) : M loc :=
  fun s =>
    (Ok (length (heap s)),
     State (heap s ++ [o]) (next_symbol s) (Names s) (Primitives s)).

(** An object literal with the given own properties. *)
Definition new_object (props : list (propkey * property)) : M value :=
  let* l := alloc (Object (Some Object_prototype) Ordinary true props) in
  ret (VObject l).

(** A new array with the given elements. *)
Definition new_array (items : list value) : M value :=
  let* l := alloc (Object (Some Array_prototype) (ArrayObj items) true []) in
  ret (VObject l).

(** [Symbol()]. *)
Definition fresh_symbol : M value :=
  fun s =>
    (Ok (VSymbol (next_symbol s)),
     State (heap s) (S (next_symbol s)) (Names s) (Primitives s)).

(** The elements of an array value, for [.map]. *)
Definition array_items (v : value) : M (list value) :=
  fun s =>
    match v with
    | VUndefined | VNull => (Throw TypeError, s)
    | VObject l =>
        match heap s !! l with
        | Some (Object _ (ArrayObj items) _ _) => (Ok items, s)
        | _ => (Throw Unsupported, s)
        end
    | _ => (Throw Unsupported, s)
    end.

Definition Array_isArray (h : list object) (v : value) : bool :=
  match v with
  | VObject l =>
      match h !! l with
      | Some (Object _ (ArrayObj _) _ _) => true
      | _ => false
      end
  | _ => false
  end.

(** ** Strings: [split], the pattern of [parse], [trim]

    A string is a sequence of code units below 256. *)

(** [s.split("::")]: [cur] is the piece being read. *)
Fixpoint split_colons (s : string) (cur : string) : list string :=
  match s with
  | EmptyString => [cur]
  | String c rest =>
      match rest with
      | String c' rest' =>
          if (Ascii.eqb c ":" && Ascii.eqb c' ":")%bool
          then cur :: split_colons rest' ""
          else split_colons rest (cur +:+ String c "")
      | EmptyString => [cur +:+ String c ""]
      end
  end.

(** [name.split("::", 2)]: at most the first two pieces. *)
Definition split_module (name : string) : list string :=
  firstn 2 (split_colons name "").

(** [.] of a pattern matches any code unit but a line terminator. *)
Definition line_terminator (c : ascii) : bool :=
  let n := nat_of_ascii c in (n =? 10)%nat || (n =? 13)%nat.

(** The ways a greedy dot-star group can match at the start of [s],
    longest first: the text taken and the text left. *)
Fixpoint dot_star (s : string) : list (string * string) :=
  match s with
  | EmptyString => [("", "")]
  | String c s' =>
      if line_terminator c then [("", s)]
      else map (fun tr => (String c (fst tr), snd tr)) (dot_star s') ++ [("", s)]
  end.

Fixpoint first_match {A B} (f : A -> option B) (xs : list A) : option B :=
  match xs with
  | [] => None
  | x :: xs' => match f x with Some b => Some b | None => first_match f xs' end
  end.

(** [fqn.match] on the pattern of [parse]: start of input, a greedy
    dot-star group, an opening angle bracket, a second greedy dot-star
    group, a closing angle bracket, end of input.  The result is the
    two groups of the first match that backtracking finds. *)
Definition match_generic (fqn : string) : option (string * string) :=
  first_match
    (fun g1 =>
       match snd g1 with
       | String c rest =>
           if Ascii.eqb c "<" then
             first_match
               (fun g2 => if String.eqb (snd g2) ">" then Some (fst g1, fst g2) else None)
               (dot_star rest)
           else None
       | EmptyString => None
       end)
    (dot_star fqn).

Definition is_space (c : ascii) : bool :=
  let n := nat_of_ascii c in
  ((9 <=? n)%nat && (n <=? 13)%nat) || (n =? 32)%nat || (n =? 160)%nat.

Fixpoint trim_start (s : string) : string :=
  match s with
  | EmptyString => ""
  | String c s' => if is_space c then trim_start s' else s
  end.

Fixpoint trim_end (s : string) : string :=
  match s with
  | EmptyString => ""
  | String c s' =>
      let t := trim_end s' in
      if (is_space c && String.eqb t "")%bool then "" else String c t
  end.

Definition trim (s : string) : string := trim_end (trim_start s).

(** The loop of [parse] over [typeParams]: [i] is the index, [intent]
    the bracket depth, [lastIndex] the start of the current parameter;
    [fuel] counts the iterations left. *)
Fixpoint scan_params (fuel : nat) (typeParams : string) (i : nat) (intent : Z)
  (lastIndex : nat) (params : list string) : list string * nat :=
  match fuel with
  | 0 => (params, lastIndex)
  | S fuel' =>
      match String.get i typeParams with
      | None => (params, lastIndex)
      | Some char =>
          if Ascii.eqb char "<" then
            scan_params fuel' typeParams (S i) (intent + 1) lastIndex params
          else if Ascii.eqb char ">" then
            scan_params fuel' typeParams (S i) (intent - 1) lastIndex params
          else if (Ascii.eqb char "," && (intent =? 0)%Z)%bool then
            scan_params fuel' typeParams (S i) intent (S i)
              (params ++ [trim (substring lastIndex (i - lastIndex) typeParams)])
          else
            scan_params fuel' typeParams (S i) intent lastIndex params
      end
  end.

(** The parameter strings of [typeParams]: the loop, then the final
    [params.push(typeParams.substring(lastIndex).trim())]. *)
Definition split_params (typeParams : string) : list string :=
  let '(params, lastIndex) :=
    scan_params (String.length typeParams) typeParams 0 0%Z 0 [] in
  params ++ [trim (substring lastIndex (String.length typeParams - lastIndex) typeParams)].

(** The first lines of [parse] after the two lookups: [module], [path]
    and [typeParams] of a name.  [None] stands for [undefined]. *)
Definition split_name (name : string) : option string * string * option string :=
  let pieces := split_module name in
  let module := nth_error pieces 0 in
  let fqn := nth_error pieces 1 in
  let '(module, fqn) :=
    match fqn with
    | Some f => if String.eqb f "" then (None, default "" module) else (module, f)
    | None => (None, default "" module)          (* if (!fqn) *)
    end in
  match match_generic fqn with
  | Some (path, typeParams) => (module, path, Some typeParams)
  | None => (module, fqn, None)
  end.

(** ** The module [typing.ts] *)

(** The exports of [primitives.ts] before that file has run. *)
Definition no_primitives : PrimitivesModule :=
  Build_PrimitivesModule VUndefined VUndefined VUndefined VUndefined VUndefined
    VUndefined VUndefined VUndefined VUndefined VUndefined VUndefined VUndefined.

(** The object literal of [PrimitiveNames] over the exports [p] of
    [primitives.ts]; it never leaves the module, so it is kept as the
    list of its entries. *)
Definition PrimitiveNames (p : PrimitivesModule) : list (string * value) :=
  [ ("string", P_String p);
    ("number", P_Number p);
    ("bigint", P_Bigint p);
    ("boolean", P_Boolean p);
    ("undefined", P_Undefined p);
    ("symbol", P_Symbol p);
    ("array", P_Array p);
    ("object", P_Object p);
    ("function", P_Function p);
    ("unknown", P_Unknown p);
    ("type", P_Type p);
    ("void", P_Void p) ].

(** The literal is evaluated once, when [typing.ts] runs its top level.
    The two files import each other, and the calls of [type] in
    [primitives.ts] need [Names], which [typing.ts] only makes after the
    literal: [primitives.ts] has exported nothing when the literal is
    read, and the table holds [undefined] under each of its twelve keys
    for good. *)
Definition PrimitiveNames_at_load : list (string * value) :=
  PrimitiveNames no_primitives.

(** What [Object.prototype] answers to the table for [name]: its data
    property, found as any other; for [__proto__], which the host
    defines as an accessor, the prototype of the table, that is
    [Object.prototype] itself, unless a data property has replaced the
    accessor. *)
Definition inherited_member (h : list object) (name : string) : outcome value :=
  match get_object h Object_prototype (KString name) with
  | Ok VUndefined =>
      if String.eqb name "__proto__" then
        match h !! Object_prototype with
        | Some o =>
            match own_property o (KString name) with
            | Some _ => Ok VUndefined
            | None => Ok (VObject Object_prototype)
            end
        | None => Throw Unsupported
        end
      else Ok VUndefined
  | r => r
  end.

(** [PrimitiveNames[name]]: an entry of the literal, else what its
    prototype [Object.prototype] answers. *)
Definition PrimitiveNames_get (name : string) : M value :=
  fun s =>
    match assoc_get name PrimitiveNames_at_load with
    | Some v => (Ok v, s)
    | None => (inherited_member (heap s) name, s)
    end.

Definition Names_has (name : value) : M bool :=
  read (fun s => match assoc_get name (Names s) with Some _ => true | None => false end).

Definition Names_get (name : value) : M value :=
  read (fun s => match assoc_get name (Names s) with
                 | Some t => VObject t
                 | None => VUndefined
                 end).

(** [Names.set(name, t)]; the module only ever stores objects. *)
Definition Names_set (name : value) (t : value) : M unit :=
  fun s =>
    match t with
    | VObject l =>
        (Ok tt, State (heap s) (next_symbol s) (assoc_set name l (Names s)) (Primitives s))
    | _ => (Throw Unsupported, s)
    end.

Definition isClass (v : value) : M bool :=
  let* h := read heap in
  ret (String.eqb (typeof h v) "function").

Definition isType (v : value) : M bool :=
  let* h := read heap in
  if String.eqb (typeof h v) "object" then
    let* sign := get_value v (KSymbol TypeSignature) in
    ret (truthy sign)
  else ret false.

Definition isTyped (v : value) : M bool :=
  let* h := read heap in
  if String.eqb (typeof h v) "object" then
    let* t := get_value v (KString "Type") in
    isType t
  else ret false.

(** [Object.getOwnPropertyNames(v).includes("constructor")]; the own
    names of an array besides [o_props] are its indices and [length]. *)
Definition isPrototype (v : value) : M bool :=
  let* h := read heap in
  if String.eqb (typeof h v) "object" then
    match v with
    | VObject l =>
        match h !! l with
        | Some o => ret (bool_decide (is_Some (own_property o (KString "constructor"))))
        | None => throw Unsupported
        end
    | _ => throw TypeError
    end
  else ret false.

Definition create : M value :=
  let* type := new_object [] in
  let* sign := fresh_symbol in
  let* _ := Reflect_defineProperty type (KSymbol TypeSignature) (hidden sign) in
  ret type.

Definition createComplex (base : value) (args : value) : M value :=
  let* complex := create in
  let* _ := Reflect_defineProperty complex (KSymbol TypeReference) (hidden base) in
  let* _ := Reflect_defineProperty complex (KSymbol TypeArguments) (hidden args) in
  ret complex.

Definition baseType (type : value) : M value :=
  let* ref := get_value type (KSymbol TypeReference) in
  ret (if truthy ref then ref else type).

Definition typeArguments (type : value) : M value :=
  Reflect_get type (KSymbol TypeArguments).

Definition hashOf (v : value) : M value :=
  Reflect_get v (KSymbol TypeSignature).

Definition nameOf (v : value) : M value :=
  Reflect_get v (KSymbol Symbol_toStringTag).

Definition compare (l r : value) : M bool :=
  let* hl := hashOf l in
  let* hr := hashOf r in
  ret (bool_decide (hl = hr)).

Definition store (v : value) (t : value) : M unit :=
  let* h := read heap in
  let p := typeof h v in
  if (String.eqb p "object" || String.eqb p "function")%bool then
    let* _ := Reflect_defineProperty v (KSymbol CachedType) (hidden t) in
    ret tt
  else ret tt.

Definition restore (v : value) : M value :=
  let* h := read heap in
  let p := typeof h v in
  if (String.eqb p "object" || String.eqb p "function")%bool then
    let* descr := Reflect_getOwnPropertyDescriptor v (KSymbol CachedType) in
    ret (match descr with Some d => p_value d | None => VUndefined end)
  else ret VUndefined.

Definition named (name : value) : M value :=
  let* type := Names_get name in
  if negb (truthy type) then
    let* type := create in
    let* _ := Reflect_defineProperty type (KSymbol Symbol_toStringTag) (hidden name) in
    let* _ := Names_set name type in
    ret type
  else ret type.

Definition extractName (v : value) : M value :=
  let* h := read heap in
  let* v :=
    if String.eqb (typeof h v) "object" then
      let* inside := has_property v (KString "constructor") in
      if inside then get_value v (KString "constructor") else ret v
    else ret v in
  let* h := read heap in
  if String.eqb (typeof h v) "function"
  then get_value v (KString "name")
  else ret VUndefined.

Definition getClassType (v : value) : M value :=
  let* type := restore v in
  if negb (truthy type) then
    let* name := extractName v in
    let* type := if truthy name then named name else create in
    let* _ := store v type in
    ret type
  else ret type.

Definition getPrototypeType (v : value) : M value :=
  let* c := get_value v (KString "constructor") in
  getClassType c.

Definition getInstanceType (v : value) : M value :=
  let* type := restore v in
  if negb (truthy type) then
    let* proto := Reflect_getPrototypeOf v in
    let* type :=
      if bool_decide (proto <> VObject Object_prototype)
      then getPrototypeType proto
      else read (fun s => P_Object (Primitives s)) in
    let* _ := store v type in
    ret type
  else ret type.

Definition getObjectType (v : value) : M value :=
  let* proto := isPrototype v in
  if proto then getPrototypeType v else getInstanceType v.

Definition getPrimitiveType (v : value) : M string :=
  let* h := read heap in
  if Array_isArray h v then ret "array"
  else if bool_decide (v = VObject host_String) then ret "string"
  else if bool_decide (v = VObject host_Number) then ret "number"
  else if bool_decide (v = VObject host_Boolean) then ret "boolean"
  else if bool_decide (v = VObject host_Symbol) then ret "symbol"
  else if bool_decide (v = VObject host_Object) then ret "object"
  else if bool_decide (v = VObject host_Function) then ret "function"
  else ret (typeof h v).

Definition typeOf (v : value) : M value :=
  let* is_type := isType v in
  if is_type then read (fun s => P_Type (Primitives s)) else
  let* h := read heap in
  if String.eqb (typeof h v) "object" then
    let* cached := restore v in
    if truthy cached then ret cached else getObjectType v
  else if String.eqb (typeof h v) "function" then
    let* cached := restore v in
    if truthy cached then ret cached else getClassType v
  else
    let* p := getPrimitiveType v in
    let* t := PrimitiveNames_get p in
    if truthy t then ret t else read (fun s => P_Unknown (Primitives s)).

(** The text of an array: the host's [Array.prototype.toString] joins
    the texts of the elements, from the left.  A symbol has none; the
    text of an element that is an object is made by code that is not
    embedded. *)
Fixpoint elements_text (items : list value) : M unit :=
  match items with
  | [] => ret tt
  | VSymbol _ :: _ => throw TypeError
  | VObject _ :: _ => throw Unsupported
  | _ :: rest => elements_text rest
  end.

(** The text of [ref] inside the message of the module's error.  The
    text of an object is made by its own [toString], host or user code:
    an array is taken to have the host's, any other callable [toString]
    is taken to return a string, and the error keeps the reference in
    place of the text. *)
Definition reference_text (ref : value) : M unit :=
  match ref with
  | VSymbol _ => throw TypeError
  | VObject l =>
      let* to_s := get_value ref (KString "toString") in
      let* h := read heap in
      if String.eqb (typeof h to_s) "function" then
        match h !! l with
        | Some o =>
            match o_kind o with
            | ArrayObj items => elements_text items
            | _ => ret tt
            end
        | None => throw Unsupported
        end
      else
        let* value_of := get_value ref (KString "valueOf") in
        if String.eqb (typeof h value_of) "function"
        then throw Unsupported
        else throw TypeError
  | _ => ret tt
  end.

(** [type], [complex] and [parse] call each other; [type] and [complex]
    take the parser they call as [parse]. *)
Section Resolver.
Variable parse : string -> M value.

Definition type_with (ref : value) : M value :=
  match ref with
  | VString name => parse name            (* typeof(ref) === "string" *)
  | _ =>
      let* typed := isTyped ref in
      if typed then get_value ref (KString "Type") else
      let* is_type := isType ref in
      if is_type then ret ref else
      let* is_class := isClass ref in
      if is_class then getClassType ref else
      let* _ := reference_text ref in
      throw (InvalidTypeReference ref)
  end.

(** The loop of [complex] over [path], from [scope]. *)
Fixpoint complex_walk (path : list value) (scope : value) : M value :=
  match path with
  | [] => ret scope
  | ty :: rest =>
      let* tySign := get_value ty (KSymbol TypeSignature) in
      let* key := to_property_key tySign in
      let* elem := get_value scope key in
      let* is_type := isType elem in
      let* elem :=
        if is_type then
          let* elemSign := get_value elem (KSymbol TypeSignature) in
          let* elemKey := to_property_key elemSign in
          let* node := new_object [(elemKey, Property elem true true true)] in
          let* _ := set_value scope key node in
          ret node
        else ret elem in
      let* h := read heap in
      let* elem :=
        if String.eqb (typeof h elem) "undefined" then
          let* node := new_object [] in
          let* _ := set_value scope key node in
          ret node
        else ret elem in
      complex_walk rest elem
  end.

(** [complex(base, typeArguments)]; the argument array is given by its
    elements. *)
Definition complex_with (base : value) (typeArguments : list value) : M value :=
  let* b := type_with base in
  let* first := baseType b in
  let* arg_types := mapM type_with typeArguments in
  let* args := new_array arg_types in
  let path := first :: arg_types in
  let last := List.last path first in         (* path.pop() *)
  let path := removelast path in
  let* lastSign := get_value last (KSymbol TypeSignature) in
  let* scope := complex_walk path (VObject ComplexMap) in
  let* lastKey := to_property_key lastSign in
  let* elem := get_value scope lastKey in
  let* is_type := isType elem in
  if is_type then ret elem else
  let* h := read heap in
  if String.eqb (typeof h elem) "undefined" then
    let* t := createComplex first args in
    let* _ := set_value scope lastKey t in
    ret t
  else createComplex first args.

Definition parse_with (name : string) : M value :=
  let* known := Names_has (VString name) in
  if known then Names_get (VString name) else
  let* primitive := PrimitiveNames_get name in
  if truthy primitive then ret primitive else
  let '(module, path, typeParams) := split_name name in
  let module_value := match module with Some m => VString m | None => VUndefined end in
  let* result :=
    named (VString (match module with
                    | Some m => if String.eqb m "" then path else m +:+ "::" +:+ path
                    | None => path
                    end)) in
  let* _ := Object_assign result [("module", module_value); ("path", VString path)] in
  match typeParams with
  | Some typeParams =>
      if String.eqb typeParams "" then ret result else
      let params := split_params typeParams in
      let* type := complex_with result (map VString params) in
      let* type_args := get_value type (KSymbol TypeArguments) in
      let* items := array_items type_args in
      let* tags := mapM (fun arg => get_value arg (KSymbol Symbol_toStringTag)) items in
      let* paramNames := join ", " tags in
      let* ref := get_value type (KSymbol TypeReference) in
      let* ref_tag := get_value ref (KSymbol Symbol_toStringTag) in
      let* ref_name := to_string ref_tag in
      let name := ref_name +:+ "<" +:+ paramNames +:+ ">" in
      let* _ := Reflect_defineProperty type (KSymbol Symbol_toStringTag)
                  (hidden (VString name)) in
      let* _ := Names_set (VString name) type in
      let* _ := Object_assign type [("module", module_value); ("path", VString path)] in
      ret type
  | None => ret result
  end.

End Resolver.

(** [parse] with a bound on the depth of its recursion through
    [complex] and [type]. *)
Fixpoint parse_fuel (fuel : nat) (name : string) : M value :=
  match fuel with
  | 0 => throw OutOfFuel
  | S fuel' => parse_with (parse_fuel fuel') name
  end.

(** Every recursive call is on a shorter string, so the length of the
    name bounds the depth ([parse_fuel_enough] below). *)
Definition parse (name : string) : M value :=
  parse_fuel (S (String.length name)) name.

Definition type (ref : value) : M value := type_with parse ref.

Definition complex (base : value) (typeArguments : list value) : M value :=
  complex_with parse base typeArguments.

Definition registerClass (name : string) (object : value) : M unit :=
  let* type := parse name in
  let* _ := set_value type (KString "constructor") object in
  store object type.

(** [register(name)(target)]: the decorator applied to [target]. *)
Definition register (name : string) (target : value) : M unit :=
  let* is_class := isClass target in
  if is_class then registerClass name target else ret tt.

(** ** The host at load time and the seed list [primitives.ts] *)

(** A built-in function, with the properties the module can read. *)
Definition builtin_function (name : string) (props : list (propkey * property)) : object :=
  Object (Some Function_prototype) Callable true
    ((KString "name", Property (VString name) false false true) :: props).

Definition method (name : string) (l : loc) : propkey * property :=
  (KString name, Property (VObject l) true false true).

Definition prototype_of (l : loc) : propkey * property :=
  (KString "prototype", Property (VObject l) false false false).

(** The heap when [typing.ts] has run its own top level: the host's
    objects, then the empty [ComplexMap].  [Object.prototype] has its
    standard methods; its accessor [__proto__] is no data property and
    is answered where a key can meet it ([inherited_member],
    [to_property_key]). *)
Definition host_heap : list object :=
  [ (* 0  Object.prototype *)
    Object None Ordinary true
      [ method "constructor" host_Object;
        method "__defineGetter__" 10; method "__defineSetter__" 11;
        method "hasOwnProperty" 12; method "__lookupGetter__" 13;
        method "__lookupSetter__" 14; method "isPrototypeOf" 15;
        method "propertyIsEnumerable" 16; method "toString" 17;
        method "valueOf" 18; method "toLocaleString" 19 ];
    (* 1  Function.prototype *)
    Object (Some Object_prototype) Callable true
      [ (KString "name", Property (VString "") false false true);
        method "constructor" host_Function; method "toString" 20 ];
    (* 2..8  Object, Function, String, Number, Boolean, Symbol, Array *)
    builtin_function "Object" [prototype_of Object_prototype];
    builtin_function "Function" [prototype_of Function_prototype];
    builtin_function "String" [];
    builtin_function "Number" [];
    builtin_function "Boolean" [];
    builtin_function "Symbol" [];
    builtin_function "Array" [prototype_of Array_prototype];
    (* 9  Array.prototype *)
    Object (Some Object_prototype) (ArrayObj []) true [method "constructor" host_Array];
    (* 10..20  the methods above *)
    builtin_function "__defineGetter__" []; builtin_function "__defineSetter__" [];
    builtin_function "hasOwnProperty" []; builtin_function "__lookupGetter__" [];
    builtin_function "__lookupSetter__" []; builtin_function "isPrototypeOf" [];
    builtin_function "propertyIsEnumerable" []; builtin_function "toString" [];
    builtin_function "valueOf" []; builtin_function "toLocaleString" [];
    builtin_function "toString" [];
    (* 21  const ComplexMap = {} *)
    Object (Some Object_prototype) Ordinary true [] ].

(** The state in which [primitives.ts] starts: [typing.ts] is loaded,
    [Names] is empty and no primitive is exported yet. *)
Definition loaded : state := State host_heap first_fresh_symbol [] no_primitives.

(** [primitives.ts]: twelve calls of [type], in the order of the file,
    then the exports.  None of the calls reads an export that an earlier
    one made, so the exports are installed together. *)
Definition primitives_ts : M unit :=
  let* ts := mapM type
               (map VString
                  ["String"; "Number"; "Bigint"; "Boolean"; "unknown"; "Symbol";
                   "Object"; "Array"; "Function"; "unknown"; "Type"; "void"]) in
  match ts with
  | [t_string; t_number; t_bigint; t_boolean; t_undefined; t_symbol;
     t_object; t_array; t_function; t_unknown; t_type; t_void] =>
      fun s =>
        (Ok tt,
         State (heap s) (next_symbol s) (Names s)
           (Build_PrimitivesModule t_string t_number t_bigint t_boolean t_undefined
              t_symbol t_object t_array t_function t_unknown t_type t_void))
  | _ => throw Unsupported
  end.

(** The state once both files are loaded. *)
Definition initial : state := Eval vm_compute in snd (primitives_ts loaded).

(** ** Running code of the host around the module *)

(** [class name {}] or [function name() {}]: the function and its
    prototype object. *)
Definition declare_class (name : string) : M value :=
  fun s =>
    let f := length (heap s) in
    let p := S f in
    (Ok (VObject f),
     State (heap s ++
              [ builtin_function name [prototype_of p];
                Object (Some Object_prototype) Ordinary true [method "constructor" f] ])
       (next_symbol s) (Names s) (Primitives s)).


(** [Object.create(null)]. *)
Definition null_prototype_object : M value :=
  let* l := alloc (Object None Ordinary true []) in
  ret (VObject l).

(** [Object.freeze({})]. *)
Definition frozen_object : M value :=
  let* l := alloc (Object (Some Object_prototype) Ordinary false []) in
  ret (VObject l).

(** A sequence of calls from a state: the result of the last one. *)
Definition result_of {A} (c : M A) (s : state) : outcome A := fst (c s).
Definition state_after {A} (c : M A) (s : state) : state := snd (c s).

(** The exported functions of the module, as the calls a client can
    make, and the state a call leaves, whether it returns or throws. *)
Inductive call :=
| Call_register (name : string) (target : value)
| Call_baseType (t : value)
| Call_typeArguments (t : value)
| Call_type (ref : value)
| Call_complex (base : value) (args : list value)
| Call_store (v t : value)
| Call_restore (v : value)
| Call_typeOf (v : value)
| Call_compare (l r : value)
| Call_nameOf (v : value)
| Call_hashOf (v : value)
| Call_isTyped (v : value)
| Call_isClass (v : value)
| Call_isType (v : value)
| Call_create
| Call_createComplex (base args : value).

Definition run_call (c : call) (s : state) : state :=
  match c with
  | Call_register name target => snd (register name target s)
  | Call_baseType t => snd (baseType t s)
  | Call_typeArguments t => snd (typeArguments t s)
  | Call_type ref => snd (type ref s)
  | Call_complex base args => snd (complex base args s)
  | Call_store v t => snd (store v t s)
  | Call_restore v => snd (restore v s)
  | Call_typeOf v => snd (typeOf v s)
  | Call_compare l r => snd (compare l r s)
  | Call_nameOf v => snd (nameOf v s)
  | Call_hashOf v => snd (hashOf v s)
  | Call_isTyped v => snd (isTyped v s)
  | Call_isClass v => snd (isClass v s)
  | Call_isType v => snd (isType v s)
  | Call_create => snd (create s)
  | Call_createComplex base args => snd (createComplex base args s)
  end.

Definition run_calls (cs : list call) (s : state) : state :=
  fold_left (fun s c => run_call c s) cs s.

(** ** Vocabulary of the statements *)

Fixpoint string_forall (P : ascii -> bool) (s : string) : bool :=
  match s with
  | EmptyString => true
  | String c s' => P c && string_forall P s'
  end.

Definition not_open_bracket (c : ascii) : bool := negb (Ascii.eqb c "<").
Definition not_terminator (c : ascii) : bool := negb (line_terminator c).

(** The first group of the pattern of [parse] with the text [p] already
    taken: what the rest of the pattern does after a candidate [g1]. *)
Definition after_path (p : string) (g1 : string * string) : option (string * string) :=
  match snd g1 with
  | String c rest =>
      if Ascii.eqb c "<" then
        first_match
          (fun g2 => if String.eqb (snd g2) ">" then Some (p +:+ fst g1, fst g2) else None)
          (dot_star rest)
      else None
  | EmptyString => None
  end.


(** [o'] is [o] but for its own properties other than the one under
    [k]. *)
Definition object_agrees_on (k : propkey) (o o' : object) : Prop :=
  o_proto o' = o_proto o /\ o_kind o' = o_kind o
  /\ o_extensible o' = o_extensible o /\ own_property o' k = own_property o k.

(** [h'] has every object of [h], each the same but for its own
    properties other than the one under [k]. *)
Definition heap_agrees_on (k : propkey) (h h' : list object) : Prop :=
  forall l o, h !! l = Some o ->
    exists o', h' !! l = Some o' /\ object_agrees_on k o o'.

(** [f] is a class with the prototype object [p]: a function whose
    [prototype] is [p], where [p] is not [Object.prototype], owns
    [constructor] with the value [f], and is no type. *)
Definition is_class (h : list object) (f p : loc) : Prop :=
  typeof h (VObject f) = "function"
  /\ p <> Object_prototype
  /\ (exists fo q, h !! f = Some fo
                  /\ own_property fo (KString "prototype") = Some q
                  /\ p_value q = VObject p)
  /\ (exists po q, h !! p = Some po
                  /\ own_property po (KString "constructor") = Some q
                  /\ p_value q = VObject f)
  /\ get_object h p (KSymbol TypeSignature) = Ok VUndefined.

(** [l] carries the cached type [T], as [store] writes it. *)
Definition cached (h : list object) (l : loc) (T : value) : Prop :=
  exists o, h !! l = Some o /\ own_property o (KSymbol CachedType) = Some (hidden T).


(** The object that [create] makes with the symbol [sign]. *)
Definition type_object (sign : nat) : object :=
  Object (Some Object_prototype) Ordinary true
    [(KSymbol TypeSignature, hidden (VSymbol sign))].

(** [o'] is [o] later on: same prototype, kind and extensibility, and
    every own property of [o] that is neither writable nor configurable
    is an own property of [o'], unchanged. *)
Definition object_extends (o o' : object) : Prop :=
  o_proto o' = o_proto o /\ o_kind o' = o_kind o
  /\ o_extensible o' = o_extensible o
  /\ forall k q, own_property o k = Some q ->
       p_writable q = false -> p_configurable q = false ->
       own_property o' k = Some q.

(** [s'] is [s] later on: every object is still there, every name of
    [Names] still has an entry, the primitives are the same. *)
Definition state_extends (s s' : state) : Prop :=
  (forall l o, heap s !! l = Some o ->
     exists o', heap s' !! l = Some o' /\ object_extends o o')
  /\ (forall k, is_Some (assoc_get k (Names s)) -> is_Some (assoc_get k (Names s')))
  /\ Primitives s' = Primitives s.

(** From every state, [c] leaves a later state, and it either returns a
    value in [Q] or throws something else than [OutOfFuel]. *)
Definition returns {A} (c : M A) (Q : A -> Prop) : Prop :=
  forall s,
    state_extends s (snd (c s))
    /\ match fst (c s) with
       | Ok a => Q a
       | Throw e => e <> OutOfFuel
       end.

Definition is_object (v : value) : Prop := exists l, v = VObject l.

(** The object that [createComplex] makes with the symbol [sign]. *)
Definition complex_object (sign : nat) (base args : value) : object :=
  Object (Some Object_prototype) Ordinary true
    [(KSymbol TypeSignature, hidden (VSymbol sign));
     (KSymbol TypeReference, hidden base);
     (KSymbol TypeArguments, hidden args)].

(** The object that [named] makes with the symbol [sign] for [name]. *)
Definition named_object (sign : nat) (name : value) : object :=
  Object (Some Object_prototype) Ordinary true
    [(KSymbol TypeSignature, hidden (VSymbol sign));
     (KSymbol Symbol_toStringTag, hidden name)].

(** Neither an object nor [null]: a value whose [typeof] is neither
    ["object"] nor ["function"]. *)
Definition is_primitive (v : value) : bool :=
  match v with
  | VObject _ | VNull => false
  | _ => true
  end.

(** The key under which [parse] asks [named] for the type of a name
    with the given [module] and [path]. *)
Definition registry_key (module : option string) (path : string) : string :=
  match module with
  | Some m => if String.eqb m "" then path else m +:+ "::" +:+ path
  | None => path
  end.

Definition not_colon (c : ascii) : bool := negb (Ascii.eqb c ":").

(** A character of a parameter list that the loop of [parse] just
    steps over: no comma and no angle bracket. *)
Definition plain_char (c : ascii) : bool :=
  negb (Ascii.eqb c "<") && negb (Ascii.eqb c ">") && negb (Ascii.eqb c ",").

(** A name without a parameter list: the pattern of [parse] does not
    match it, or matches it with nothing between the brackets. *)
Definition plain_name (name : string) : bool :=
  match snd (split_name name) with
  | None => true
  | Some typeParams => String.eqb typeParams ""
  end.

(** * Properties *)

(** ** The loaded module on the plain cases *)

(** The host's objects are where the constants say, and [ComplexMap]
    starts as an empty object. *)
Example host_heap_layout :
  length host_heap = 22
  /\ host_heap !! ComplexMap = Some (Object (Some Object_prototype) Ordinary true [])
  /\ get_object host_heap host_Object (KString "prototype") = Ok (VObject Object_prototype)
  /\ get_object host_heap Array_prototype (KString "constructor") = Ok (VObject host_Array)
  /\ get_object host_heap host_String (KString "name") = Ok (VString "String").
Proof. repeat split. Qed.

(** Loading registers the eleven names of [primitives.ts]; [Undefined]
    and [Unknown] are one type, both made by [type("unknown")]. *)
Example primitives_loaded :
  map fst (Names initial) =
    map VString ["String"; "Number"; "Bigint"; "Boolean"; "unknown"; "Symbol";
                 "Object"; "Array"; "Function"; "Type"; "void"]
  /\ P_Undefined (Primitives initial) = P_Unknown (Primitives initial).
Proof. split; reflexivity. Qed.

(** Arrays and plain objects resolve to the primitives, an array
    through [Array.prototype] and the name of its constructor; numbers,
    strings and [undefined] resolve to [Primitives.Unknown], since the
    table of primitive names holds nothing. *)
Example typeOf_plain_values :
  result_of
    (let* n := typeOf (VNumber 42) in
     let* t := typeOf (VString "x") in
     let* u := typeOf VUndefined in
     let* a := new_array [] in
     let* ta := typeOf a in
     let* o := new_object [] in
     let* to := typeOf o in
     let* p := read Primitives in
     ret (bool_decide (n = P_Unknown p), bool_decide (t = P_Unknown p),
          bool_decide (u = P_Unknown p), bool_decide (ta = P_Array p),
          bool_decide (to = P_Object p)))
    initial
  = Ok (true, true, true, true, true).
Proof. vm_compute. reflexivity. Qed.

(** [complex] tells the order of the arguments, and answers a repeated
    request with the same object as long as no longer list came in
    between. *)
Example complex_plain :
  result_of
    (let* b := parse "B" in
     let* a1 := parse "A1" in
     let* a2 := parse "A2" in
     let* t12 := complex b [a1; a2] in
     let* t21 := complex b [a2; a1] in
     let* again := complex b [a1; a2] in
     ret (bool_decide (t12 = t21), bool_decide (again = t12)))
    initial
  = Ok (false, true).
Proof. vm_compute. reflexivity. Qed.

(** A plain reference that is no string, type, typed value or class is
    refused with the module's own error. *)
Example type_refuses_plain_values :
  result_of (type (VNumber 5)) initial = Throw (InvalidTypeReference (VNumber 5))
  /\ result_of (type VUndefined) initial = Throw (InvalidTypeReference VUndefined)
  /\ result_of (let* o := new_object [] in
                let* r := type o in ret (o, r)) initial
     = Throw (InvalidTypeReference (VObject 33)).
Proof. repeat split. Qed.

(** ** The interner ([complex]) *)

(** C1. [complex(B, [A])] is asked three times, with one
    [complex(B, [A, C])] after the first: the second and third answers
    for [(B, [A])] are not the first one, nor each other.  The longer
    list turns the slot of [A] under [B] into a sub-level that holds the
    first answer under that answer's own token; the lookup for
    [(B, [A])] then finds the sub-level, which is neither a type nor
    [undefined], and falls to the last line of [complex], which makes a
    new type and stores it nowhere.  The module's own [compare] tells
    the answers apart. *)
Theorem complex_forgets_after_longer_list :
  result_of
    (let* b := parse "B" in
     let* a := parse "A" in
     let* c := parse "C" in
     let* t1 := complex b [a] in
     let* _ := complex b [a; c] in
     let* t2 := complex b [a] in
     let* t3 := complex b [a] in
     let* same12 := compare t1 t2 in
     let* same23 := compare t2 t3 in
     ret (bool_decide (t1 = t2), bool_decide (t2 = t3), same12, same23))
    initial
  = Ok (false, false, false, false).
Proof. vm_compute. reflexivity. Qed.

(** ** The parser ([parse]) *)

(** C2. On ["List<Map<string, number>>"] the pattern of [parse] gives
    the path ["List<Map"] and the parameter list ["string, number>"]:
    its first group is greedy and runs to the last opening bracket.  The
    loop then splits that list at its comma, which it meets at depth 0,
    into ["string"] and ["number>"]; the resulting type carries the
    path ["List<Map"], two arguments, and a display name made of the
    names of these pieces. *)
Theorem parse_nested_generic_splits_at_last_bracket :
  match_generic "List<Map<string, number>>" = Some ("List<Map", "string, number>")
  /\ split_params "string, number>" = ["string"; "number>"]
  /\ result_of
       (let* t := parse "List<Map<string, number>>" in
        let* path := get_value t (KString "path") in
        let* args := typeArguments t in
        let* items := array_items args in
        let* name := nameOf t in
        ret (path, length items, name))
       initial
     = Ok (VString "List<Map", 2, VString "List<Map<string, number>>").
Proof. repeat split; vm_compute; reflexivity. Qed.

(** C4. After one [parse("Map<Foo, Bar>")], two calls of
    [parse("Map< Foo>")] in a row return two different objects, and
    [compare] on them is false.  The name ["Map< Foo>"] itself is never
    put in [Names]: the parameter is trimmed, so the type is held under
    the display name ["Map<Foo>"] only, and each call goes through
    [complex].  There the slot of [Foo] under [Map] is a sub-level since
    the longer list was interned, and a new type is made every time. *)
Theorem parse_twice_differs_after_longer_list :
  result_of
    (let* _ := parse "Map<Foo, Bar>" in
     let* a := parse "Map< Foo>" in
     let* b := parse "Map< Foo>" in
     let* same := compare a b in
     let* name := nameOf a in
     ret (bool_decide (a = b), same, name))
    initial
  = Ok (false, false, VString "Map<Foo>").
Proof. vm_compute. reflexivity. Qed.

(** C8. In the loaded module, [parse("Map<string, number>")] returns a
    type whose [nameOf] is ["Map<string, number>"], not
    ["Map<String, Number>"]: the table of primitive names holds nothing,
    so ["string"] and ["number"] are new named types with these very
    names.  [Names] has no entry under ["Map<String, Number>"], and
    [parse("Map<String, Number>")] makes another type, which [compare]
    tells apart from the first. *)
Theorem parse_display_name_is_not_canonical :
  result_of
    (let* t := parse "Map<string, number>" in
     let* name := nameOf t in
     let* alias := Names_get (VString "Map<String, Number>") in
     let* again := parse "Map<String, Number>" in
     let* same := compare t again in
     ret (name, alias, bool_decide (again = t), same))
    initial
  = Ok (VString "Map<string, number>", VUndefined, false, false).
Proof. vm_compute. reflexivity. Qed.

(** ** The resolver ([typeOf], [type]) *)

(** C3. In every state [typeOf(null)] throws a [TypeError]:
    [typeof null] is ["object"], so [isType] reads a property of
    [null].  An object without a prototype makes [typeOf] throw as well:
    [getInstanceType] hands the [null] prototype to [getPrototypeType],
    which reads its [constructor]. *)
Theorem typeOf_null_throws :
  (forall s, typeOf VNull s = (Throw TypeError, s))
  /\ result_of (let* o := null_prototype_object in typeOf o) initial = Throw TypeError.
Proof. split; reflexivity. Qed.

(** C6. In every state [type(null)] throws a [TypeError], not the
    module's invalid-reference error: [typeof null] is ["object"], so
    [isTyped] reads [null["Type"]] before the last line of [type] is
    reached.  A symbol reaches the last line, where the message cannot
    be built from it: a [TypeError] again. *)
Theorem type_null_throws :
  (forall s, type VNull s = (Throw TypeError, s))
  /\ (forall s n, type (VSymbol n) s = (Throw TypeError, s))
  /\ (Throw TypeError : outcome value) <> Throw (InvalidTypeReference VNull).
Proof. split_and!; [reflexivity.. | discriminate]. Qed.

(** C5. The table of primitive names is read once, before
    [primitives.ts] has exported anything: each of its twelve entries is
    [undefined].  In the loaded module [parse("string")] therefore does
    not return [Primitives.String]: it makes a new type, named
    ["string"], and puts it in [Names]; so it does for every key of the
    table that [Names] does not hold. *)
Theorem parse_primitive_name_makes_new_type :
  (forall name v, assoc_get name PrimitiveNames_at_load = Some v -> v = VUndefined)
  /\ result_of
       (let* t := parse "string" in
        let* name := nameOf t in
        let* held := Names_get (VString "string") in
        let* p := read Primitives in
        ret (bool_decide (t = P_String p), name, bool_decide (held = t)))
       initial
     = Ok (false, VString "string", true)
  /\ map (fun name =>
            result_of
              (let* known := Names_has (VString name) in
               let* fresh := read (fun s => VObject (length (heap s))) in
               let* t := parse name in
               ret (known || bool_decide (t = fresh)))
              initial)
       (map fst PrimitiveNames_at_load)
     = repeat (Ok true) 12.
Proof.
  split_and!.
  - intros name v. unfold PrimitiveNames_at_load, PrimitiveNames. cbn [assoc_get].
    repeat match goal with
           | |- context [decide (name = ?n)] => destruct (decide (name = n)) as [_|_]
           end; first [intros [= <-]; reflexivity | discriminate].
  - vm_compute. reflexivity.
  - vm_compute. reflexivity.
Qed.

(** ** Association lists and the heap *)

Section AssocFacts.
Context {K V : Type} `{EqDecision K}.

Lemma assoc_get_set_eq (k : K) (v : V) (m : list (K * V)) :
  assoc_get k (assoc_set k v m) = Some v.
Proof.
  induction m as [|[k' v'] m IH]; simpl.
  - destruct (decide (k = k)); congruence.
  - destruct (decide (k = k')) as [->|Hne]; simpl.
    + destruct (decide (k' = k')); congruence.
    + destruct (decide (k = k')); [contradiction|exact IH].
Qed.

Lemma assoc_get_set_ne (k k' : K) (v : V) (m : list (K * V)) :
  k <> k' -> assoc_get k' (assoc_set k v m) = assoc_get k' m.
Proof.
  intros Hne. induction m as [|[k0 v0] m IH]; simpl.
  - destruct (decide (k' = k)); congruence.
  - destruct (decide (k = k0)) as [->|Hk]; simpl.
    + destruct (decide (k' = k0)); congruence.
    + destruct (decide (k' = k0)); [reflexivity|exact IH].
Qed.

End AssocFacts.

Lemma heap_insert_same (h : list object) (l : loc) (o : object) :
  h !! l = Some o -> <[l := o]> h = h.
Proof. apply list_insert_id. Qed.

Lemma heap_lookup_insert (h : list object) (l : loc) (o o' : object) :
  h !! l = Some o -> <[l := o']> h !! l = Some o'.
Proof.
  intros Hl. apply list_lookup_insert_eq. eapply lookup_lt_Some, Hl.
Qed.

Lemma typeof_object_or_function (h : list object) (l : loc) :
  typeof h (VObject l) = "object" \/ typeof h (VObject l) = "function".
Proof.
  simpl. destruct (h !! l) as [[p [| |items] e ps]|]; auto.
Qed.

(** ** The value cache ([store], [restore]) *)

(** C7 (as the claim states it). A frozen object takes no entry: after
    [store(o, T)] on it, [restore(o)] is [undefined]. *)
Lemma store_on_frozen_object_is_lost :
  result_of
    (let* o := frozen_object in
     let* t := parse "T" in
     let* _ := store o t in
     let* r := restore o in
     ret (r, bool_decide (r = t)))
    initial
  = Ok (VUndefined, false).
Proof. vm_compute. reflexivity. Qed.

(** [store] on an extensible object without an entry adds the hidden
    property. *)
Lemma store_fresh (s : state) (l : loc) (o : object) (T : value) :
  heap s !! l = Some o ->
  o_extensible o = true ->
  own_property o (KSymbol CachedType) = None ->
  store (VObject l) T s =
    (Ok tt,
     State (<[l := set_props o (assoc_set (KSymbol CachedType) (hidden T) (o_props o))]> (heap s))
       (next_symbol s) (Names s) (Primitives s)).
Proof.
  intros Hl Hext Hnone. unfold store, bind, read, ret.
  destruct (typeof_object_or_function (heap s) l) as [-> | ->]; simpl;
    rewrite Hl; unfold define_own; rewrite Hnone, Hext; reflexivity.
Qed.

(** [store] on an object that has a hidden entry changes nothing. *)
Lemma store_again (s : state) (l : loc) (o : object) (T T' : value) :
  heap s !! l = Some o ->
  own_property o (KSymbol CachedType) = Some (hidden T) ->
  store (VObject l) T' s = (Ok tt, s).
Proof.
  intros Hl Hsome. unfold store, bind, read, ret.
  destruct (typeof_object_or_function (heap s) l) as [-> | ->]; simpl;
    rewrite Hl; unfold define_own; rewrite Hsome; simpl;
    (destruct (decide (T' = T)); [rewrite (heap_insert_same _ _ _ Hl)|]);
    destruct s; reflexivity.
Qed.

Lemma restore_entry (s : state) (l : loc) (o : object) (p : property) :
  heap s !! l = Some o ->
  own_property o (KSymbol CachedType) = Some p ->
  restore (VObject l) s = (Ok (p_value p), s).
Proof.
  intros Hl Hsome. unfold restore, bind, read, ret.
  destruct (typeof_object_or_function (heap s) l) as [-> | ->]; simpl;
    rewrite Hl, Hsome; reflexivity.
Qed.

(** ** Reading through heap changes *)

Lemma object_agrees_refl (k : propkey) (o : object) : object_agrees_on k o o.
Proof. repeat split. Qed.

Lemma object_agrees_trans (k : propkey) (o1 o2 o3 : object) :
  object_agrees_on k o1 o2 -> object_agrees_on k o2 o3 -> object_agrees_on k o1 o3.
Proof.
  intros (Hp & Hk & He & Ho) (Hp' & Hk' & He' & Ho'). repeat split; congruence.
Qed.

Lemma heap_agrees_refl (k : propkey) (h : list object) : heap_agrees_on k h h.
Proof. intros l o Hl. exists o. split; [exact Hl | apply object_agrees_refl]. Qed.

Lemma heap_agrees_trans (k : propkey) (h1 h2 h3 : list object) :
  heap_agrees_on k h1 h2 -> heap_agrees_on k h2 h3 -> heap_agrees_on k h1 h3.
Proof.
  intros H12 H23 l o Hl.
  destruct (H12 l o Hl) as (o2 & Hl2 & Ho2).
  destruct (H23 l o2 Hl2) as (o3 & Hl3 & Ho3).
  exists o3. split; [exact Hl3 | eapply object_agrees_trans; eassumption].
Qed.

Lemma heap_agrees_app (k : propkey) (h more : list object) :
  heap_agrees_on k h (h ++ more).
Proof.
  intros l o Hl. exists o. split; [|apply object_agrees_refl].
  rewrite lookup_app_l; [exact Hl | eapply lookup_lt_Some, Hl].
Qed.

Lemma heap_agrees_insert (k : propkey) (h : list object) (l : loc) (o o' : object) :
  h !! l = Some o ->
  object_agrees_on k o o' ->
  heap_agrees_on k h (<[l := o']> h).
Proof.
  intros Hl Ho l0 o0 Hl0. destruct (decide (l = l0)) as [<-|Hne].
  - exists o'. rewrite (heap_lookup_insert _ _ _ _ Hl).
    assert (o0 = o) by congruence. subst o0. auto.
  - exists o0. rewrite list_lookup_insert_ne by exact Hne.
    split; [exact Hl0 | apply object_agrees_refl].
Qed.

Lemma array_key_kind (o o' : object) (k : propkey) :
  o_kind o' = o_kind o -> array_key o' k = array_key o k.
Proof. unfold array_key. intros ->. reflexivity. Qed.

(** A read that succeeds still succeeds, with the same value, on a heap
    that agrees on the key, and with more fuel. *)
Lemma get_from_agrees (k : propkey) (h h' : list object) :
  heap_agrees_on k h h' ->
  forall n l v, get_from n h l k = Ok v ->
  forall m, n <= m -> get_from m h' l k = Ok v.
Proof.
  intros Hag n. induction n as [|n IH]; intros l v Hget m Hm; [discriminate|].
  destruct m as [|m]; [lia|]. simpl in *.
  destruct (h !! l) as [o|] eqn:Hl; [|discriminate].
  destruct (Hag l o Hl) as (o' & Hl' & Hp & Hk & He & Ho).
  rewrite Hl', (array_key_kind o o' k Hk), Ho, Hp.
  destruct (array_key o k); [discriminate|].
  destruct (own_property o k); [exact Hget|].
  destruct (o_proto o); [|exact Hget].
  apply IH; [exact Hget | lia].
Qed.

Lemma heap_agrees_length (k : propkey) (h h' : list object) :
  heap_agrees_on k h h' -> length h <= length h'.
Proof.
  intros Hag. destruct (decide (length h <= length h')) as [|Hgt]; [assumption|].
  assert (Hlt : length h' < length h) by lia.
  destruct (lookup_lt_is_Some_2 h (length h') Hlt) as [o Ho].
  destruct (Hag _ _ Ho) as (o' & Ho' & _).
  apply lookup_lt_Some in Ho'. lia.
Qed.

Lemma get_object_agrees (k : propkey) (h h' : list object) (l : loc) (v : value) :
  heap_agrees_on k h h' ->
  get_object h l k = Ok v -> get_object h' l k = Ok v.
Proof.
  intros Hag Hget. unfold get_object in *.
  pose proof (heap_agrees_length k h h' Hag).
  eapply get_from_agrees; [exact Hag | exact Hget | lia].
Qed.

Lemma insert_at_end (h : list object) (o o' : object) :
  <[length h := o']> (h ++ [o]) = h ++ [o'].
Proof.
  rewrite insert_app_r_alt by lia. rewrite Nat.sub_diag. reflexivity.
Qed.

Lemma lookup_at_end (h : list object) (o : object) :
  (h ++ [o]) !! length h = Some o.
Proof. apply list_lookup_middle. reflexivity. Qed.

(** ** The identity kernel and the registry *)

Lemma create_spec (s : state) :
  create s =
    (Ok (VObject (length (heap s))),
     State (heap s ++ [type_object (next_symbol s)]) (S (next_symbol s))
       (Names s) (Primitives s)).
Proof.
  unfold create, new_object, alloc, fresh_symbol, Reflect_defineProperty, bind, ret.
  cbn [heap next_symbol Names Primitives]. rewrite lookup_at_end.
  cbn. rewrite insert_at_end. reflexivity.
Qed.

Lemma define_tag_on_new (sign : nat) (name : value) :
  define_own (type_object sign) (KSymbol Symbol_toStringTag) (hidden name) =
    Some (Object (Some Object_prototype) Ordinary true
            [(KSymbol TypeSignature, hidden (VSymbol sign));
             (KSymbol Symbol_toStringTag, hidden name)]).
Proof. reflexivity. Qed.

(** [named] returns an object that [Names] holds under the name
    afterwards; an entry that is already there is returned as it is. *)
Lemma named_spec (s : state) (name : value) :
  exists T s1,
    named name s = (Ok (VObject T), s1)
    /\ assoc_get name (Names s1) = Some T
    /\ (forall T0, assoc_get name (Names s) = Some T0 -> T = T0 /\ s1 = s)
    /\ (exists more, heap s1 = heap s ++ more).
Proof.
  unfold named, Names_get, bind at 1, read.
  destruct (assoc_get name (Names s)) as [T0|] eqn:Hget; cbn [truthy negb].
  - exists T0, s. split_and!; auto.
    + intros T1 H1. split; congruence.
    + exists []. symmetry. apply app_nil_r.
  - unfold bind, ret, Names_set. rewrite create_spec.
    unfold Reflect_defineProperty. cbn [heap]. rewrite lookup_at_end.
    rewrite define_tag_on_new. cbn. rewrite insert_at_end.
    eexists _, _. split; [reflexivity|]. cbn. split_and!.
    + apply assoc_get_set_eq.
    + intros T0 H0. discriminate.
    + eexists. reflexivity.
Qed.

(** [Reflect.defineProperty] on an object changes at most the property
    under the key. *)
Lemma defineProperty_spec (s : state) (l : loc) (o : object) (k0 : propkey) (d : property) :
  heap s !! l = Some o ->
  exists o' b,
    Reflect_defineProperty (VObject l) k0 d s =
      (Ok b, State (<[l := o']> (heap s)) (next_symbol s) (Names s) (Primitives s))
    /\ (forall k, k <> k0 -> object_agrees_on k o o').
Proof.
  intros Hl. unfold Reflect_defineProperty. rewrite Hl.
  destruct (define_own o k0 d) as [o'|] eqn:Hd.
  - exists o', true. split; [reflexivity|]. unfold define_own in Hd.
    assert (Hset : forall k, k <> k0 ->
              object_agrees_on k o (set_props o (assoc_set k0 d (o_props o)))).
    { intros k Hk. repeat split. apply assoc_get_set_ne. congruence. }
    repeat match type of Hd with
           | (if ?c then _ else _) = _ => destruct c
           | match ?c with _ => _ end = _ => destruct c
           end;
      try discriminate; injection Hd as <-; eauto using object_agrees_refl.
  - exists o, false. rewrite (heap_insert_same _ _ _ Hl). destruct s.
    split; [reflexivity | auto using object_agrees_refl].
Qed.

(** [store] on an object changes at most the entry of that object. *)
Lemma store_spec (s : state) (l : loc) (o : object) (T : value) :
  heap s !! l = Some o ->
  exists o',
    store (VObject l) T s =
      (Ok tt, State (<[l := o']> (heap s)) (next_symbol s) (Names s) (Primitives s))
    /\ (forall k, k <> KSymbol CachedType -> object_agrees_on k o o').
Proof.
  intros Hl.
  destruct (defineProperty_spec s l o (KSymbol CachedType) (hidden T) Hl)
    as (o' & b & Hdef & Hrest).
  exists o'. split; [|exact Hrest].
  unfold store, bind, read, ret.
  destruct (typeof_object_or_function (heap s) l) as [-> | ->];
    cbn -[Reflect_defineProperty]; rewrite Hdef; reflexivity.
Qed.

Lemma typeof_callable (h : list object) (l : loc) (o : object) :
  h !! l = Some o -> o_kind o = Callable -> typeof h (VObject l) = "function".
Proof. intros Hl Hk. simpl. rewrite Hl. destruct o; simpl in Hk; subst; reflexivity. Qed.

Lemma restore_none (s : state) (l : loc) (o : object) :
  heap s !! l = Some o ->
  own_property o (KSymbol CachedType) = None ->
  restore (VObject l) s = (Ok VUndefined, s).
Proof.
  intros Hl Hnone. unfold restore, bind, read, ret.
  destruct (typeof_object_or_function (heap s) l) as [-> | ->]; simpl;
    rewrite Hl, Hnone; reflexivity.
Qed.

Lemma truthy_string (n : string) : n <> "" -> truthy (VString n) = true.
Proof.
  intros Hn. simpl. apply negb_true_iff, String.eqb_neq, Hn.
Qed.

(** [named] is idempotent: a second call returns the same object and
    changes nothing. *)
Lemma named_idempotent (s s1 : state) (name T : value) :
  named name s = (Ok T, s1) -> named name s1 = (Ok T, s1).
Proof.
  intros Hrun.
  destruct (named_spec s name) as (T1 & s1' & Hrun1 & Hnames & _ & _).
  rewrite Hrun1 in Hrun. injection Hrun as <- <-.
  destruct (named_spec s1' name) as (T2 & s2 & Hrun2 & _ & Hold & _).
  destruct (Hold T1 Hnames) as [-> ->]. exact Hrun2.
Qed.

(** ** Classes without a registered type *)

(** [getClassType] of a function that has no cached type and a
    non-empty [name]: the type that [Names] holds under that name
    afterwards (the one it held before, if any), stored on the function
    when the function takes it.  Other objects are left as they are. *)
Lemma getClassType_unresolved (s : state) (f : loc) (o : object) (n : string) :
  heap s !! f = Some o ->
  o_kind o = Callable ->
  own_property o (KSymbol CachedType) = None ->
  get_object (heap s) f (KString "name") = Ok (VString n) ->
  n <> "" ->
  exists T s1,
    getClassType (VObject f) s = (Ok (VObject T), s1)
    /\ assoc_get (VString n) (Names s1) = Some T
    /\ (forall T0, assoc_get (VString n) (Names s) = Some T0 -> T = T0)
    /\ (forall g og, g <> f -> heap s !! g = Some og -> heap s1 !! g = Some og)
    /\ (forall k, k <> KSymbol CachedType -> heap_agrees_on k (heap s) (heap s1)).
Proof.
  intros Hl Hkind Hnone Hname Hn.
  pose proof (typeof_callable _ _ _ Hl Hkind) as Htypeof.
  assert (Hextract : extractName (VObject f) s = (Ok (VString n), s)).
  { unfold extractName, bind, read, ret. rewrite Htypeof.
    cbn -[get_object typeof]. rewrite Htypeof. cbn -[get_object].
    rewrite Hname. reflexivity. }
  destruct (named_spec s (VString n)) as (T & s1 & Hnamed & Hnames & Hold & more & Hheap).
  assert (Hl1 : heap s1 !! f = Some o).
  { rewrite Hheap, lookup_app_l; [exact Hl | eapply lookup_lt_Some, Hl]. }
  destruct (store_spec s1 f o (VObject T) Hl1) as (o' & Hstore & Hother).
  eexists T, _. split_and!.
  - unfold getClassType, bind. rewrite (restore_none s f o Hl Hnone). cbn [truthy negb].
    rewrite Hextract, (truthy_string n Hn), Hnamed, Hstore. reflexivity.
  - exact Hnames.
  - intros T0 H0. apply (Hold T0 H0).
  - intros g og Hg Hgl. cbn [heap]. rewrite list_lookup_insert_ne by congruence.
    rewrite Hheap, lookup_app_l; [exact Hgl | eapply lookup_lt_Some, Hgl].
  - intros k Hk0. cbn [heap]. apply (heap_agrees_trans k _ (heap s1)).
    + rewrite Hheap. apply heap_agrees_app.
    + apply (heap_agrees_insert k _ f o o' Hl1 (Hother k Hk0)).
Qed.

Lemma typeOf_unresolved_function (s : state) (f : loc) (o : object) :
  heap s !! f = Some o ->
  o_kind o = Callable ->
  own_property o (KSymbol CachedType) = None ->
  typeOf (VObject f) s = getClassType (VObject f) s.
Proof.
  intros Hl Hkind Hnone.
  pose proof (typeof_callable _ _ _ Hl Hkind) as Htypeof.
  unfold typeOf, isType, bind at 1 2, read, ret. rewrite Htypeof. cbn [String.eqb Ascii.eqb Bool.eqb].
  unfold bind at 1. rewrite Htypeof. cbn [String.eqb Ascii.eqb Bool.eqb].
  unfold bind at 1. rewrite (restore_none s f o Hl Hnone). reflexivity.
Qed.

(** ** Instances of a class *)

Lemma get_object_own (h : list object) (l : loc) (o : object) (k : propkey) (q : property) :
  h !! l = Some o -> array_key o k = false -> own_property o k = Some q ->
  get_object h l k = Ok (p_value q).
Proof.
  intros Hl Ha Ho. unfold get_object. cbn [get_from]. rewrite Hl, Ha, Ho. reflexivity.
Qed.

Lemma array_key_constructor (o : object) : array_key o (KString "constructor") = false.
Proof. destruct o as [pr [| |items] ex ps]; reflexivity. Qed.


Lemma array_key_symbol (o : object) (n : nat) : array_key o (KSymbol n) = false.
Proof. destruct o as [pr [| |items] ex ps]; reflexivity. Qed.

Lemma typeof_agrees (k : propkey) (h h' : list object) (l : loc) (o : object) :
  heap_agrees_on k h h' -> h !! l = Some o ->
  typeof h' (VObject l) = typeof h (VObject l).
Proof.
  intros Hag Hl. destruct (Hag l o Hl) as (o' & Hl' & _ & Hk & _).
  simpl. rewrite Hl, Hl'. destruct o, o'; simpl in Hk; subst; reflexivity.
Qed.


Lemma cached_agrees (h h' : list object) (l : loc) (T : value) :
  heap_agrees_on (KSymbol CachedType) h h' -> cached h l T -> cached h' l T.
Proof.
  intros Hag (o & Hl & Ho). destruct (Hag l o Hl) as (o' & Hl' & _ & _ & _ & Hown).
  exists o'. rewrite Hown. auto.
Qed.









(** ** What every call of the module keeps

    No function of the module removes an object, changes a prototype, a
    kind or an extensibility flag, touches a property that is neither
    writable nor configurable, or removes a name; and none runs out of
    fuel. *)

Lemma object_extends_refl (o : object) : object_extends o o.
Proof. repeat split; auto. Qed.

Lemma object_extends_trans (o1 o2 o3 : object) :
  object_extends o1 o2 -> object_extends o2 o3 -> object_extends o1 o3.
Proof.
  intros (Hp & Hk & He & Ho) (Hp' & Hk' & He' & Ho').
  split_and!; try congruence. intros k q Hq Hw Hc. apply Ho'; auto.
Qed.

Lemma state_extends_refl (s : state) : state_extends s s.
Proof.
  split_and!; auto. intros l o Hl. exists o. split; [exact Hl | apply object_extends_refl].
Qed.

Lemma state_extends_trans (s1 s2 s3 : state) :
  state_extends s1 s2 -> state_extends s2 s3 -> state_extends s1 s3.
Proof.
  intros (Hh & Hn & Hp) (Hh' & Hn' & Hp'). split_and!.
  - intros l o Hl. destruct (Hh l o Hl) as (o2 & Hl2 & Ho2).
    destruct (Hh' l o2 Hl2) as (o3 & Hl3 & Ho3).
    exists o3. split; [exact Hl3 | eapply object_extends_trans; eassumption].
  - auto.
  - congruence.
Qed.

(** A state with a changed heap, when every object of the old heap has a
    later version in the new one. *)
Lemma state_extends_heap (s : state) (h' : list object) (sym : nat) :
  (forall l o, heap s !! l = Some o -> exists o', h' !! l = Some o' /\ object_extends o o') ->
  state_extends s (State h' sym (Names s) (Primitives s)).
Proof. intros Hh. split_and!; auto. Qed.

Lemma state_extends_insert (s : state) (l : loc) (o o' : object) (sym : nat) :
  heap s !! l = Some o -> object_extends o o' ->
  state_extends s (State (<[l := o']> (heap s)) sym (Names s) (Primitives s)).
Proof.
  intros Hl Ho. apply state_extends_heap. intros l0 o0 Hl0.
  destruct (decide (l = l0)) as [<-|Hne].
  - exists o'. rewrite (heap_lookup_insert _ _ _ _ Hl).
    assert (o0 = o) by congruence. subst o0. auto.
  - exists o0. rewrite list_lookup_insert_ne by exact Hne.
    split; [exact Hl0 | apply object_extends_refl].
Qed.

Lemma state_extends_app (s : state) (more : list object) (sym : nat) :
  state_extends s (State (heap s ++ more) sym (Names s) (Primitives s)).
Proof.
  apply state_extends_heap. intros l o Hl. exists o.
  split; [|apply object_extends_refl].
  rewrite lookup_app_l; [exact Hl | eapply lookup_lt_Some, Hl].
Qed.

Lemma returns_ret {A} (a : A) (Q : A -> Prop) : Q a -> returns (ret a) Q.
Proof. intros Ha s. split; [apply state_extends_refl | exact Ha]. Qed.

Lemma returns_throw {A} (e : error) (Q : A -> Prop) :
  e <> OutOfFuel -> returns (throw e) Q.
Proof. intros He s. split; [apply state_extends_refl | exact He]. Qed.

Lemma returns_read {A} (f : state -> A) (Q : A -> Prop) :
  (forall s, Q (f s)) -> returns (read f) Q.
Proof. intros Hf s. split; [apply state_extends_refl | apply Hf]. Qed.

Lemma returns_bind {A B} (c : M A) (k : A -> M B) (Q : A -> Prop) (Q' : B -> Prop) :
  returns c Q -> (forall a, Q a -> returns (k a) Q') -> returns (bind c k) Q'.
Proof.
  intros Hc Hk s. unfold bind. specialize (Hc s).
  destruct (c s) as [[a|e] s1]; simpl in Hc; destruct Hc as [Hext Hq].
  - destruct (Hk a Hq s1) as [Hext' Hq']. split; [|exact Hq'].
    eapply state_extends_trans; eassumption.
  - split; assumption.
Qed.

Lemma returns_weaken {A} (c : M A) (Q Q' : A -> Prop) :
  returns c Q -> (forall a, Q a -> Q' a) -> returns c Q'.
Proof.
  intros Hc HQ s. destruct (Hc s) as [Hext Hq]. split; [exact Hext|].
  destruct (fst (c s)); auto.
Qed.

(** A call that reads the state and returns or throws without writing. *)
Lemma returns_pure {A} (c : M A) (Q : A -> Prop) :
  (forall s, snd (c s) = s) ->
  (forall s a, fst (c s) = Ok a -> Q a) ->
  (forall s, fst (c s) <> Throw OutOfFuel) ->
  returns c Q.
Proof.
  intros Hs Hq He s. rewrite Hs. split; [apply state_extends_refl|].
  destruct (fst (c s)) as [a|e] eqn:Hc; [eauto|].
  intros ->. apply (He s). exact Hc.
Qed.

Lemma returns_mapM {A B} (f : A -> M B) (xs : list A) :
  (forall x, In x xs -> returns (f x) (fun _ => True)) ->
  returns (mapM f xs) (fun _ => True).
Proof.
  induction xs as [|x xs IH]; intros Hf; cbn [mapM].
  - apply returns_ret. exact I.
  - eapply returns_bind; [apply Hf; left; reflexivity|]. intros y _.
    eapply returns_bind; [apply IH; intros; apply Hf; right; assumption|].
    intros ys _. apply returns_ret. exact I.
Qed.

Lemma get_from_not_fuel (n : nat) (h : list object) (l : loc) (k : propkey) :
  get_from n h l k <> Throw OutOfFuel.
Proof.
  revert l. induction n as [|n IH]; intros l; cbn [get_from]; [discriminate|].
  destruct (h !! l) as [o|]; [|discriminate].
  destruct (array_key o k); [discriminate|].
  destruct (own_property o k); [discriminate|].
  destruct (o_proto o); [apply IH | discriminate].
Qed.

Lemma has_from_not_fuel (n : nat) (h : list object) (l : loc) (k : propkey) :
  has_from n h l k <> Throw OutOfFuel.
Proof.
  revert l. induction n as [|n IH]; intros l; cbn [has_from]; [discriminate|].
  destruct (h !! l) as [o|]; [|discriminate].
  destruct (array_key o k); [discriminate|].
  destruct (own_property o k); [discriminate|].
  destruct (o_proto o); [apply IH | discriminate].
Qed.

Lemma inherited_writable_not_fuel (n : nat) (h : list object) (p : option loc) (k : propkey) :
  inherited_writable n h p k <> Throw OutOfFuel.
Proof.
  revert p. induction n as [|n IH]; intros [l|]; cbn [inherited_writable]; try discriminate.
  destruct (h !! l) as [o|]; [|discriminate].
  destruct (array_key o k); [discriminate|].
  destruct (own_property o k); [discriminate|]. apply IH.
Qed.

Lemma returns_get_value (v : value) (k : propkey) :
  returns (get_value v k) (fun _ => True).
Proof.
  apply returns_pure.
  - intros s. destruct v; reflexivity.
  - auto.
  - intros s. unfold get_value. destruct v; cbn [fst]; try discriminate.
    apply get_from_not_fuel.
Qed.

Lemma returns_Reflect_get (v : value) (k : propkey) :
  returns (Reflect_get v k) (fun _ => True).
Proof.
  apply returns_pure.
  - intros s. destruct v; reflexivity.
  - auto.
  - intros s. unfold Reflect_get. destruct v; cbn [fst]; try discriminate.
    apply get_from_not_fuel.
Qed.

Lemma returns_has_property (v : value) (k : propkey) :
  returns (has_property v k) (fun _ => True).
Proof.
  apply returns_pure.
  - intros s. destruct v; reflexivity.
  - auto.
  - intros s. unfold has_property. destruct v; cbn [fst]; try discriminate.
    apply has_from_not_fuel.
Qed.

Lemma returns_getOwnPropertyDescriptor (v : value) (k : propkey) :
  returns (Reflect_getOwnPropertyDescriptor v k) (fun _ => True).
Proof.
  apply returns_pure.
  - intros s. destruct v; try reflexivity. cbn. destruct (heap s !! l); reflexivity.
  - auto.
  - intros s. destruct v; cbn; try discriminate. destruct (heap s !! l); discriminate.
Qed.

Lemma returns_getPrototypeOf (v : value) :
  returns (Reflect_getPrototypeOf v) (fun _ => True).
Proof.
  apply returns_pure.
  - intros s. destruct v; try reflexivity. cbn. destruct (heap s !! l); reflexivity.
  - auto.
  - intros s. destruct v; cbn; try discriminate. destruct (heap s !! l); discriminate.
Qed.

Lemma returns_array_items (v : value) :
  returns (array_items v) (fun _ => True).
Proof.
  apply returns_pure.
  - intros s. destruct v; try reflexivity. cbn.
    destruct (heap s !! l) as [[p [| |items] e ps]|]; reflexivity.
  - auto.
  - intros s. destruct v; cbn; try discriminate.
    destruct (heap s !! l) as [[p [| |items] e ps]|]; discriminate.
Qed.

Lemma returns_to_property_key (v : value) :
  returns (to_property_key v) (fun _ => True).
Proof.
  apply returns_pure.
  - intros s. destruct v as [| |[]| | |x| |]; try reflexivity.
    cbn [to_property_key]. destruct (String.eqb x "__proto__"); reflexivity.
  - auto.
  - intros s. destruct v as [| |[]| | |x| |]; try discriminate.
    cbn [to_property_key]. destruct (String.eqb x "__proto__"); discriminate.
Qed.

Lemma returns_to_string (v : value) :
  returns (to_string v) (fun _ => True).
Proof.
  apply returns_pure.
  - intros s. destruct v as [| |[]| | | | |]; reflexivity.
  - auto.
  - intros s. destruct v as [| |[]| | | | |]; discriminate.
Qed.

Lemma returns_PrimitiveNames_get (name : string) :
  returns (PrimitiveNames_get name) (fun _ => True).
Proof.
  apply returns_pure.
  - intros s. unfold PrimitiveNames_get. destruct (assoc_get _ _); reflexivity.
  - auto.
  - intros s. unfold PrimitiveNames_get. destruct (assoc_get _ _); cbn [fst]; [discriminate|].
    unfold inherited_member.
    pose proof (get_from_not_fuel (S (length (heap s))) (heap s) Object_prototype
                  (KString name)) as Hget.
    fold (get_object (heap s) Object_prototype (KString name)) in Hget.
    destruct (get_object (heap s) Object_prototype (KString name)) as [[| | | | | | |]|e];
      try exact Hget; try discriminate.
    destruct (String.eqb name "__proto__"); [|discriminate].
    destruct (heap s !! Object_prototype) as [o|]; [|discriminate].
    destruct (own_property o (KString name)); discriminate.
Qed.

(** The writers. *)

Lemma define_own_extends (o o' : object) (k : propkey) (d : property) :
  define_own o k d = Some o' -> object_extends o o'.
Proof.
  unfold define_own. intros Hd.
  assert (Hset : forall cur, own_property o k = cur ->
            (forall q, cur = Some q -> p_writable q = true \/ p_configurable q = true) ->
            object_extends o (set_props o (assoc_set k d (o_props o)))).
  { intros cur Hcur Hfree. split_and!; try reflexivity. intros k0 q Hq Hw Hc.
    destruct (decide (k = k0)) as [<-|Hne].
    - destruct (Hfree q) as [H|H]; congruence.
    - unfold own_property, set_props; cbn. rewrite assoc_get_set_ne by exact Hne. exact Hq. }
  destruct (own_property o k) as [cur|] eqn:Hcur.
  - destruct (p_configurable cur) eqn:Hconf.
    { injection Hd as <-. apply (Hset _ eq_refl). intros q [= <-]. auto. }
    destruct (p_configurable d); [discriminate|].
    destruct (negb _); [discriminate|].
    destruct (p_writable cur) eqn:Hwr.
    { injection Hd as <-. apply (Hset _ eq_refl). intros q [= <-]. auto. }
    destruct (p_writable d); [discriminate|].
    destruct (decide _); [|discriminate]. injection Hd as <-. apply object_extends_refl.
  - destruct (o_extensible o); [|discriminate]. injection Hd as <-.
    apply (Hset _ eq_refl). intros q [=].
Qed.

Lemma returns_defineProperty (v : value) (k : propkey) (d : property) :
  returns (Reflect_defineProperty v k d) (fun _ => True).
Proof.
  intros s. unfold Reflect_defineProperty.
  destruct v; try (split; [apply state_extends_refl | discriminate]).
  destruct (heap s !! l) as [o|] eqn:Hl;
    [|split; [apply state_extends_refl | discriminate]].
  destruct (define_own o k d) as [o'|] eqn:Hd; cbn [fst snd].
  - split; [|exact I]. apply (state_extends_insert s l o o' _ Hl).
    eapply define_own_extends, Hd.
  - split; [apply state_extends_refl | exact I].
Qed.

Lemma returns_set_value (v : value) (k : propkey) (x : value) :
  returns (set_value v k x) (fun _ => True).
Proof.
  intros s. unfold set_value, set_object.
  destruct v; try (split; [apply state_extends_refl | discriminate]).
  destruct (heap s !! l) as [o|] eqn:Hl;
    [|split; [apply state_extends_refl | discriminate]].
  destruct (array_key o k); [split; [apply state_extends_refl | discriminate]|].
  assert (Hset : forall q,
            (forall cur, own_property o k = Some cur -> p_writable cur = true) ->
            object_extends o (set_props o (assoc_set k q (o_props o)))).
  { intros q Hfree. split_and!; try reflexivity. intros k0 q0 Hq Hw Hc.
    destruct (decide (k = k0)) as [<-|Hne].
    - rewrite (Hfree q0 Hq) in Hw. discriminate.
    - unfold own_property, set_props; cbn. rewrite assoc_get_set_ne by exact Hne. exact Hq. }
  destruct (own_property o k) as [cur|] eqn:Hcur.
  - destruct (p_writable cur) eqn:Hw; cbn [fst snd].
    + split; [|exact I]. apply (state_extends_insert s l o _ _ Hl).
      apply Hset. intros c [= <-]. exact Hw.
    + split; [apply state_extends_refl | discriminate].
  - pose proof (inherited_writable_not_fuel (length (heap s)) (heap s) (o_proto o) k) as Hnf.
    destruct (inherited_writable _ _ _ _) as [w|e]; cbn [fst snd].
    + destruct (w && o_extensible o); cbn [fst snd].
      * split; [|exact I]. apply (state_extends_insert s l o _ _ Hl).
        apply Hset. intros c [=].
      * split; [apply state_extends_refl | discriminate].
    + split; [apply state_extends_refl | congruence].
Qed.

Lemma returns_alloc (o : object) : returns (alloc o) (fun _ => True).
Proof. intros s. split; [apply state_extends_app | exact I]. Qed.

Lemma returns_new_object (props : list (propkey * property)) :
  returns (new_object props) is_object.
Proof.
  intros s. split; [apply state_extends_app | eexists; reflexivity].
Qed.

Lemma returns_new_array (items : list value) :
  returns (new_array items) is_object.
Proof.
  intros s. split; [apply state_extends_app | eexists; reflexivity].
Qed.

Lemma returns_fresh_symbol : returns fresh_symbol (fun _ => True).
Proof.
  intros s. split; [|exact I]. apply state_extends_heap.
  intros l o Hl. exists o. split; [exact Hl | apply object_extends_refl].
Qed.

Lemma returns_Names_set (name t : value) : returns (Names_set name t) (fun _ => True).
Proof.
  intros s. unfold Names_set.
  destruct t; try (split; [apply state_extends_refl | discriminate]).
  split; [|exact I]. split_and!; cbn [fst snd heap Names Primitives].
  - intros l0 o Hl. exists o. split; [exact Hl | apply object_extends_refl].
  - intros k Hk. destruct (decide (name = k)) as [<-|Hne].
    + rewrite assoc_get_set_eq. eauto.
    + rewrite assoc_get_set_ne by exact Hne. exact Hk.
  - reflexivity.
Qed.

Create HintDb returns.

#[local] Hint Resolve returns_get_value returns_Reflect_get returns_has_property
  returns_getOwnPropertyDescriptor returns_getPrototypeOf returns_array_items
  returns_to_property_key returns_to_string returns_PrimitiveNames_get
  returns_defineProperty returns_set_value returns_alloc returns_new_object
  returns_new_array returns_fresh_symbol returns_Names_set : returns.

(** One step through a monadic term: a known call, or the structure of
    the term. *)
Ltac returns_tac :=
  lazymatch goal with
  | |- returns (bind _ _) _ =>
      first
        [ eapply returns_bind; [solve [eauto with returns] | intros ? ?; returns_tac]
        | eapply (returns_bind _ _ (fun _ => True));
          [returns_tac | intros ? ?; returns_tac] ]
  | |- returns (ret _) _ => apply returns_ret; first [assumption | exact I]
  | |- returns (throw _) _ => apply returns_throw; discriminate
  | |- returns (read _) _ => apply returns_read; intros; exact I
  | |- returns (if ?b then _ else _) _ => destruct b; returns_tac
  | |- returns (match ?x with _ => _ end) _ => destruct x; returns_tac
  | |- returns _ _ =>
      first
        [ solve [eauto with returns]
        | eapply returns_weaken; [solve [eauto with returns] | intros; exact I] ]
  end.

Lemma returns_Names_has (name : value) : returns (Names_has name) (fun _ => True).
Proof. unfold Names_has. returns_tac. Qed.

Lemma returns_Names_get (name : value) : returns (Names_get name) (fun _ => True).
Proof. unfold Names_get. returns_tac. Qed.

Lemma returns_assign_entries (target : value) (source : list (string * value)) :
  returns (assign_entries target source) (fun _ => True).
Proof.
  induction source as [|[k x] rest IH]; cbn [assign_entries]; [returns_tac|].
  eapply returns_bind; [apply returns_set_value | intros _ _; exact IH].
Qed.

Lemma returns_Object_assign (target : value) (source : list (string * value)) :
  returns (Object_assign target source) (fun _ => True).
Proof.
  unfold Object_assign. destruct target; try returns_tac. apply returns_assign_entries.
Qed.

Lemma returns_join (sep : string) (xs : list value) :
  returns (join sep xs) (fun _ => True).
Proof.
  unfold join. eapply returns_bind; [|intros; returns_tac].
  apply returns_mapM. intros x _. destruct x; returns_tac.
Qed.

#[local] Hint Resolve returns_Names_has returns_Names_get returns_Object_assign
  returns_join : returns.

Lemma returns_isClass (v : value) : returns (isClass v) (fun _ => True).
Proof. unfold isClass. returns_tac. Qed.

Lemma returns_isType (v : value) : returns (isType v) (fun _ => True).
Proof. unfold isType. returns_tac. Qed.

#[local] Hint Resolve returns_isClass returns_isType : returns.

Lemma returns_isTyped (v : value) : returns (isTyped v) (fun _ => True).
Proof. unfold isTyped. returns_tac. Qed.

Lemma returns_isPrototype (v : value) : returns (isPrototype v) (fun _ => True).
Proof. unfold isPrototype. returns_tac. Qed.

Lemma returns_create : returns create is_object.
Proof. unfold create. returns_tac. Qed.

#[local] Hint Resolve returns_isTyped returns_isPrototype returns_create : returns.

Lemma returns_createComplex (base args : value) :
  returns (createComplex base args) is_object.
Proof. unfold createComplex. returns_tac. Qed.

Lemma returns_baseType (t : value) : returns (baseType t) (fun _ => True).
Proof. unfold baseType. returns_tac. Qed.

Lemma returns_typeArguments (t : value) : returns (typeArguments t) (fun _ => True).
Proof. unfold typeArguments. returns_tac. Qed.

Lemma returns_hashOf (t : value) : returns (hashOf t) (fun _ => True).
Proof. unfold hashOf. returns_tac. Qed.

Lemma returns_nameOf (t : value) : returns (nameOf t) (fun _ => True).
Proof. unfold nameOf. returns_tac. Qed.

#[local] Hint Resolve returns_createComplex returns_baseType returns_typeArguments
  returns_hashOf returns_nameOf : returns.

Lemma returns_compare (l r : value) : returns (compare l r) (fun _ => True).
Proof. unfold compare. returns_tac. Qed.

Lemma returns_store (v t : value) : returns (store v t) (fun _ => True).
Proof. unfold store. returns_tac. Qed.

Lemma returns_restore (v : value) : returns (restore v) (fun _ => True).
Proof. unfold restore. returns_tac. Qed.

(** [named] returns an object. *)
Lemma returns_named (name : value) : returns (named name) is_object.
Proof.
  intros s. destruct (named_spec s name) as (T & s1 & Hrun & _ & _ & _).
  assert (Hext : returns (named name) (fun _ => True)) by (unfold named; returns_tac).
  destruct (Hext s) as [Hs _]. split; [exact Hs|].
  rewrite Hrun. eexists. reflexivity.
Qed.

#[local] Hint Resolve returns_compare returns_store returns_restore returns_named : returns.

Lemma returns_extractName (v : value) : returns (extractName v) (fun _ => True).
Proof. unfold extractName. returns_tac. Qed.

#[local] Hint Resolve returns_extractName : returns.

Lemma returns_getClassType (v : value) : returns (getClassType v) (fun _ => True).
Proof. unfold getClassType. returns_tac. Qed.

#[local] Hint Resolve returns_getClassType : returns.

Lemma returns_getPrototypeType (v : value) : returns (getPrototypeType v) (fun _ => True).
Proof. unfold getPrototypeType. returns_tac. Qed.

#[local] Hint Resolve returns_getPrototypeType : returns.

Lemma returns_getInstanceType (v : value) : returns (getInstanceType v) (fun _ => True).
Proof. unfold getInstanceType. returns_tac. Qed.

#[local] Hint Resolve returns_getInstanceType : returns.

Lemma returns_getObjectType (v : value) : returns (getObjectType v) (fun _ => True).
Proof. unfold getObjectType. returns_tac. Qed.

Lemma returns_getPrimitiveType (v : value) : returns (getPrimitiveType v) (fun _ => True).
Proof. unfold getPrimitiveType. returns_tac. Qed.

#[local] Hint Resolve returns_getObjectType returns_getPrimitiveType : returns.

Lemma returns_typeOf (v : value) : returns (typeOf v) (fun _ => True).
Proof. unfold typeOf. returns_tac. Qed.

Lemma returns_elements_text (items : list value) :
  returns (elements_text items) (fun _ => True).
Proof.
  induction items as [|x rest IH]; cbn [elements_text]; [returns_tac|].
  destruct x; first [exact IH | returns_tac].
Qed.

#[local] Hint Resolve returns_elements_text : returns.

Lemma returns_reference_text (ref : value) : returns (reference_text ref) (fun _ => True).
Proof. unfold reference_text. returns_tac. Qed.

#[local] Hint Resolve returns_typeOf returns_reference_text : returns.

(** ** The strings that [parse] hands on are shorter than its name *)

Lemma string_length_app (a b : string) :
  String.length (a +:+ b) = String.length a + String.length b.
Proof. induction a as [|c a IH]; simpl; [reflexivity | f_equal; exact IH]. Qed.

Lemma trim_start_length (s : string) : String.length (trim_start s) <= String.length s.
Proof.
  induction s as [|c s IH]; cbn; [lia|]. destruct (is_space c); cbn; lia.
Qed.

Lemma trim_end_length (s : string) : String.length (trim_end s) <= String.length s.
Proof.
  induction s as [|c s IH]; cbn; [lia|].
  destruct (is_space c && String.eqb (trim_end s) ""); cbn; lia.
Qed.

Lemma trim_length (s : string) : String.length (trim s) <= String.length s.
Proof.
  unfold trim. pose proof (trim_end_length (trim_start s)).
  pose proof (trim_start_length s). lia.
Qed.

Lemma substring_length (n m : nat) (s : string) :
  String.length (substring n m s) <= String.length s.
Proof.
  revert n m. induction s as [|c s IH]; intros [|n] [|m]; cbn; try lia.
  - specialize (IH 0 m). lia.
  - specialize (IH n 0). lia.
  - specialize (IH n (S m)). lia.
Qed.

Lemma scan_params_short (typeParams : string) (fuel i : nat) (intent : Z) (lastIndex : nat)
  (params : list string) :
  Forall (fun p => String.length p <= String.length typeParams) params ->
  Forall (fun p => String.length p <= String.length typeParams)
    (fst (scan_params fuel typeParams i intent lastIndex params)).
Proof.
  revert i intent lastIndex params.
  induction fuel as [|fuel IH]; intros i intent lastIndex params Hall; cbn [scan_params];
    [exact Hall|].
  destruct (String.get i typeParams) as [char|]; [|exact Hall].
  destruct (Ascii.eqb char "<"); [apply IH, Hall|].
  destruct (Ascii.eqb char ">"); [apply IH, Hall|].
  destruct (Ascii.eqb char "," && (intent =? 0)%Z); [|apply IH, Hall].
  apply IH. apply Forall_app. split; [exact Hall|].
  constructor; [|constructor].
  etransitivity; [apply trim_length | apply substring_length].
Qed.

Lemma split_params_short (typeParams p : string) :
  In p (split_params typeParams) -> String.length p <= String.length typeParams.
Proof.
  unfold split_params.
  pose proof (scan_params_short typeParams (String.length typeParams) 0 0%Z 0 []
                (List.Forall_nil _)) as Hscan.
  destruct (scan_params _ _ _ _ _ _) as [params lastIndex]. cbn [fst] in Hscan.
  intros Hin. apply in_app_or in Hin. destruct Hin as [Hin | [<- | []]].
  - rewrite Forall_forall in Hscan. apply Hscan. apply list_elem_of_In. exact Hin.
  - etransitivity; [apply trim_length | apply substring_length].
Qed.

Lemma dot_star_splits (s a r : string) :
  In (a, r) (dot_star s) -> s = a +:+ r.
Proof.
  revert a r. induction s as [|c s IH]; intros a r; cbn [dot_star].
  - intros [[= <- <-] | []]. reflexivity.
  - destruct (line_terminator c).
    + intros [[= <- <-] | []]. reflexivity.
    + intros Hin. apply in_app_or in Hin. destruct Hin as [Hin | [[= <- <-] | []]];
        [|reflexivity].
      apply in_map_iff in Hin. destruct Hin as ([a' r'] & [= <- <-] & Hin').
      change (String c s = String c (a' +:+ r')). f_equal. apply IH. exact Hin'.
Qed.

Lemma first_match_some {A B} (f : A -> option B) (xs : list A) (b : B) :
  first_match f xs = Some b -> exists x, In x xs /\ f x = Some b.
Proof.
  induction xs as [|x xs IH]; cbn; [discriminate|].
  destruct (f x) as [b'|] eqn:Hfx.
  - intros [= <-]. exists x. auto.
  - intros Hrest. destruct (IH Hrest) as (x' & Hin & Hx'). exists x'. auto.
Qed.

(** What the pattern of [parse] matches: the name is the path, an
    opening bracket, the parameter list and a closing bracket. *)
Lemma match_generic_shape (fqn path typeParams : string) :
  match_generic fqn = Some (path, typeParams) ->
  fqn = path +:+ "<" +:+ typeParams +:+ ">".
Proof.
  unfold match_generic. intros Hm.
  destruct (first_match_some _ _ _ Hm) as ([g1 r1] & Hin1 & Hf1). cbn [fst snd] in Hf1.
  destruct r1 as [|c r2]; [discriminate|].
  destruct (Ascii.eqb c "<") eqn:Hc; [|discriminate].
  apply Ascii.eqb_eq in Hc. subst c.
  destruct (first_match_some _ _ _ Hf1) as ([g2 r3] & Hin2 & Hf2). cbn [fst snd] in Hf2.
  destruct (String.eqb r3 ">") eqn:Hr3; [|discriminate].
  apply String.eqb_eq in Hr3. subst r3. injection Hf2 as <- <-.
  rewrite (dot_star_splits _ _ _ Hin1). f_equal.
  rewrite (dot_star_splits _ _ _ Hin2). reflexivity.
Qed.

Lemma split_colons_short (n : nat) (s cur p : string) :
  String.length s <= n ->
  In p (split_colons s cur) -> String.length p <= String.length cur + String.length s.
Proof.
  revert s cur. induction n as [|n IH]; intros s cur Hn.
  - destruct s; [|cbn in Hn; lia]. cbn. intros [<- | []]. lia.
  - destruct s as [|c rest]; cbn [split_colons].
    + intros [<- | []]. cbn. lia.
    + destruct rest as [|c' rest'].
      * intros [<- | []]. rewrite string_length_app. cbn. lia.
      * destruct (Ascii.eqb c ":" && Ascii.eqb c' ":").
        -- intros [<- | Hin]; [cbn; lia|].
           apply IH in Hin; [cbn in *; lia | cbn in Hn; lia].
        -- intros Hin. apply IH in Hin; [|cbn in *; lia].
           rewrite string_length_app in Hin. cbn in *. lia.
Qed.

Lemma split_name_short (name path typeParams : string) (module : option string) :
  split_name name = (module, path, Some typeParams) ->
  String.length typeParams + 2 <= String.length name.
Proof.
  unfold split_name, split_module.
  assert (Hpieces : forall i p, nth_error (firstn 2 (split_colons name "")) i = Some p ->
            String.length p <= String.length name).
  { intros i p Hi. apply nth_error_In in Hi.
    assert (Hin : In p (split_colons name ""))
      by (rewrite <- (firstn_skipn 2); apply in_or_app; left; exact Hi).
    apply (split_colons_short (String.length name)) in Hin; [exact Hin | lia]. }
  set (pieces := firstn 2 (split_colons name "")) in *.
  assert (Hfqn : forall fqn m,
            (match nth_error pieces 1 with
             | Some f => if String.eqb f "" then (None, default "" (nth_error pieces 0))
                         else (nth_error pieces 0, f)
             | None => (None, default "" (nth_error pieces 0))
             end) = (m, fqn) -> String.length fqn <= String.length name).
  { intros fqn m.
    destruct (nth_error pieces 0) as [p0|] eqn:E0;
      destruct (nth_error pieces 1) as [f|] eqn:E1;
      try destruct (String.eqb f ""); intros [= <- <-]; simpl; eauto; lia. }
  match goal with
  | |- (match ?x with _ => _ end) = _ -> _ => destruct x as [m fqn] eqn:Hpair
  end.
  specialize (Hfqn fqn m eq_refl).
  destruct (match_generic fqn) as [[g1 g2]|] eqn:Hm; [|discriminate].
  intros [= <- <- <-]. apply match_generic_shape in Hm.
  rewrite Hm in Hfqn. rewrite !string_length_app in Hfqn. cbn in Hfqn. lia.
Qed.

(** ** [type], [complex] and [parse] *)

Lemma returns_type_with (P : string -> M value) (ref : value) :
  (forall n, ref = VString n -> returns (P n) (fun _ => True)) ->
  returns (type_with P ref) (fun _ => True).
Proof.
  intros HP. unfold type_with.
  destruct ref; first [apply HP; reflexivity | returns_tac].
Qed.

Lemma returns_complex_walk (path : list value) (scope : value) :
  returns (complex_walk path scope) (fun _ => True).
Proof.
  revert scope. induction path as [|ty rest IH]; intros scope; cbn [complex_walk];
    returns_tac.
Qed.

#[local] Hint Resolve returns_complex_walk : returns.

Lemma returns_complex_with (P : string -> M value) (base : value) (args : list value) :
  (forall n, In (VString n) (base :: args) -> returns (P n) (fun _ => True)) ->
  returns (complex_with P base args) (fun _ => True).
Proof.
  intros HP. unfold complex_with.
  eapply returns_bind.
  { apply returns_type_with. intros n ->. apply HP. left. reflexivity. }
  intros b _. eapply returns_bind; [apply returns_baseType|]. intros first _.
  eapply returns_bind.
  { apply returns_mapM. intros x Hx. apply returns_type_with. intros n ->.
    apply HP. right. exact Hx. }
  intros arg_types _. returns_tac.
Qed.

Lemma returns_parse_with (P : string -> M value) (name : string) :
  (forall n, String.length n < String.length name -> returns (P n) (fun _ => True)) ->
  returns (parse_with P name) (fun _ => True).
Proof.
  intros HP. unfold parse_with.
  eapply returns_bind; [apply returns_Names_has|]. intros known _.
  destruct known; [apply returns_Names_get|].
  eapply returns_bind; [apply returns_PrimitiveNames_get|]. intros primitive _.
  destruct (truthy primitive); [returns_tac|].
  destruct (split_name name) as [[module path] typeParams] eqn:Hsplit.
  eapply returns_bind; [apply returns_named|]. intros result [l ->].
  eapply returns_bind; [apply returns_Object_assign|]. intros _ _.
  destruct typeParams as [typeParams|]; [|returns_tac].
  destruct (String.eqb typeParams ""); [returns_tac|].
  eapply returns_bind.
  { apply returns_complex_with. intros n [Hn | Hn]; [discriminate|].
    apply HP. apply in_map_iff in Hn. destruct Hn as (p & [= ->] & Hp).
    apply split_params_short in Hp. apply split_name_short in Hsplit. lia. }
  intros type _.
  eapply returns_bind; [apply returns_get_value|]. intros type_args _.
  eapply returns_bind; [apply returns_array_items|]. intros items _.
  eapply returns_bind.
  { apply returns_mapM. intros x _. apply returns_get_value. }
  intros tags _. returns_tac.
Qed.

(** With more fuel than the name is long, [parse] does not run out of
    fuel, and it leaves a later state. *)
Lemma returns_parse_fuel (fuel : nat) (name : string) :
  String.length name < fuel ->
  returns (parse_fuel fuel name) (fun _ => True).
Proof.
  revert name. induction fuel as [|fuel IH]; intros name Hlen; [lia|].
  cbn [parse_fuel]. apply returns_parse_with. intros n Hn. apply IH. lia.
Qed.

Lemma returns_parse (name : string) : returns (parse name) (fun _ => True).
Proof. apply returns_parse_fuel. lia. Qed.

#[local] Hint Resolve returns_parse : returns.

Lemma returns_type (ref : value) : returns (type ref) (fun _ => True).
Proof. apply returns_type_with. intros n _. apply returns_parse. Qed.

Lemma returns_complex (base : value) (args : list value) :
  returns (complex base args) (fun _ => True).
Proof. apply returns_complex_with. intros n _. apply returns_parse. Qed.

Lemma returns_registerClass (name : string) (object : value) :
  returns (registerClass name object) (fun _ => True).
Proof. unfold registerClass. returns_tac. Qed.

#[local] Hint Resolve returns_registerClass : returns.

Lemma returns_register (name : string) (target : value) :
  returns (register name target) (fun _ => True).
Proof. unfold register. returns_tac. Qed.

(** ** The fuel of [parse] *)

Lemma bind_ext {A B} (c c' : M A) (k k' : A -> M B) (s : state) :
  c s = c' s ->
  (forall a s1, c s = (Ok a, s1) -> k a s1 = k' a s1) ->
  bind c k s = bind c' k' s.
Proof.
  intros Hc Hk. unfold bind. rewrite <- Hc.
  destruct (c s) as [[a|e] s1]; [apply Hk; reflexivity | reflexivity].
Qed.

Lemma mapM_ext {A B} (f g : A -> M B) (xs : list A) :
  (forall x s, In x xs -> f x s = g x s) ->
  forall s, mapM f xs s = mapM g xs s.
Proof.
  induction xs as [|x xs IH]; intros Hfg s; cbn [mapM]; [reflexivity|].
  apply bind_ext; [apply Hfg; left; reflexivity|]. intros y s1 _.
  apply bind_ext; [apply IH; intros; apply Hfg; right; assumption|]. reflexivity.
Qed.

Lemma type_with_ext (P P' : string -> M value) (ref : value) :
  (forall n s, ref = VString n -> P n s = P' n s) ->
  forall s, type_with P ref s = type_with P' ref s.
Proof.
  intros HP s. destruct ref; try reflexivity. cbn [type_with]. apply HP. reflexivity.
Qed.

Lemma complex_with_ext (P P' : string -> M value) (base : value) (args : list value) :
  (forall n s, In (VString n) (base :: args) -> P n s = P' n s) ->
  forall s, complex_with P base args s = complex_with P' base args s.
Proof.
  intros HP s. unfold complex_with.
  apply bind_ext.
  { apply type_with_ext. intros n s0 ->. apply HP. left. reflexivity. }
  intros b s1 _. apply bind_ext; [reflexivity|]. intros first s2 _.
  apply bind_ext; [|reflexivity].
  apply mapM_ext. intros x s0 Hx. apply type_with_ext. intros n s3 ->.
  apply HP. right. exact Hx.
Qed.

Lemma parse_with_ext (P P' : string -> M value) (name : string) :
  (forall n s, String.length n < String.length name -> P n s = P' n s) ->
  forall s, parse_with P name s = parse_with P' name s.
Proof.
  intros HP s. unfold parse_with.
  apply bind_ext; [reflexivity|]. intros known s0 _.
  destruct known; [reflexivity|].
  apply bind_ext; [reflexivity|]. intros primitive s1 _.
  destruct (truthy primitive); [reflexivity|].
  destruct (split_name name) as [[module path] typeParams] eqn:Hsplit.
  apply bind_ext; [reflexivity|]. intros result s2 Hnamed.
  match type of Hnamed with
  | named ?n _ = _ => destruct (named_spec s1 n) as (T & s' & Hrun & _)
  end.
  rewrite Hrun in Hnamed. injection Hnamed as <- <-.
  apply bind_ext; [reflexivity|]. intros _ s3 _.
  destruct typeParams as [typeParams|]; [|reflexivity].
  destruct (String.eqb typeParams ""); [reflexivity|].
  apply bind_ext; [|reflexivity].
  apply complex_with_ext. intros n s4 [Hn | Hn]; [discriminate|].
  apply HP. apply in_map_iff in Hn. destruct Hn as (p & [= ->] & Hp).
  apply split_params_short in Hp. apply split_name_short in Hsplit. lia.
Qed.

Lemma parse_fuel_stable (n m : nat) (name : string) (s : state) :
  String.length name < n -> String.length name < m ->
  parse_fuel n name s = parse_fuel m name s.
Proof.
  revert m name s. induction n as [|n IH]; intros [|m] name s Hn Hm; try lia.
  cbn [parse_fuel]. apply parse_with_ext. intros x s0 Hx. apply IH; lia.
Qed.

(** Fuel beyond the length of the name changes nothing, and [parse]
    never stops for lack of fuel. *)
Lemma parse_fuel_enough (fuel : nat) (name : string) (s : state) :
  String.length name < fuel ->
  parse_fuel fuel name s = parse name s
  /\ fst (parse name s) <> Throw OutOfFuel.
Proof.
  intros Hlen. split.
  - apply parse_fuel_stable; [exact Hlen | lia].
  - destruct (returns_parse name s) as [_ Hres].
    destruct (fst (parse name s)); [discriminate | congruence].
Qed.

(** ** The value cache, for good *)

Lemma run_call_extends (c : call) (s : state) : state_extends s (run_call c s).
Proof.
  destruct c; cbn [run_call];
    first [ apply returns_register | apply returns_baseType | apply returns_typeArguments
          | apply returns_type | apply returns_complex | apply returns_store
          | apply returns_restore | apply returns_typeOf | apply returns_compare
          | apply returns_nameOf | apply returns_hashOf | apply returns_isTyped
          | apply returns_isClass | apply returns_isType | apply returns_create
          | apply returns_createComplex ].
Qed.

Lemma run_calls_extends (cs : list call) (s : state) : state_extends s (run_calls cs s).
Proof.
  revert s. induction cs as [|c cs IH]; intros s; cbn [run_calls fold_left].
  - apply state_extends_refl.
  - eapply state_extends_trans; [apply run_call_extends | apply IH].
Qed.

(** A cached type stays where it is, whatever is called. *)
Lemma cached_extends (s s' : state) (l : loc) (T : value) :
  state_extends s s' -> cached (heap s) l T -> cached (heap s') l T.
Proof.
  intros (Hheap & _ & _) (o & Hl & Ho).
  destruct (Hheap l o Hl) as (o' & Hl' & _ & _ & _ & Hkeep).
  exists o'. split; [exact Hl'|]. apply Hkeep; [exact Ho | reflexivity..].
Qed.

Lemma restore_cached (s : state) (l : loc) (T : value) :
  cached (heap s) l T -> restore (VObject l) s = (Ok T, s).
Proof. intros (o & Hl & Ho). apply (restore_entry s l o (hidden T) Hl Ho). Qed.

(** [store] on an object that has no entry and takes no new property
    changes nothing. *)
Lemma store_refused (s : state) (l : loc) (o : object) (T : value) :
  heap s !! l = Some o ->
  o_extensible o = false ->
  own_property o (KSymbol CachedType) = None ->
  store (VObject l) T s = (Ok tt, s).
Proof.
  intros Hl Hext Hnone. unfold store, bind, read, ret.
  destruct (typeof_object_or_function (heap s) l) as [-> | ->]; simpl;
    rewrite Hl; unfold define_own; rewrite Hnone, Hext; reflexivity.
Qed.

(** C7 (amended). For every object or function [l] that has no cached
    entry, and every [T], [store(l, T)] returns.  When [l] is
    extensible, [restore(l)] then returns [T], every later
    [store(l, T')] leaves the whole state as it is, and after any
    sequence of calls of the module's exported functions [restore(l)]
    still returns [T].  When [l] is not extensible, every [store] on it
    leaves the whole state as it is, and [restore(l)] returns
    [undefined]. *)
Theorem store_restore_write_once (s : state) (l : loc) (o : object) (T : value) :
  heap s !! l = Some o ->
  own_property o (KSymbol CachedType) = None ->
  let s1 := state_after (store (VObject l) T) s in
  result_of (store (VObject l) T) s = Ok tt
  /\ (o_extensible o = true ->
       restore (VObject l) s1 = (Ok T, s1)
       /\ (forall T', store (VObject l) T' s1 = (Ok tt, s1))
       /\ (forall cs, restore (VObject l) (run_calls cs s1) = (Ok T, run_calls cs s1)))
  /\ (o_extensible o = false ->
       s1 = s
       /\ (forall T', store (VObject l) T' s = (Ok tt, s))
       /\ restore (VObject l) s = (Ok VUndefined, s)).
Proof.
  intros Hl Hnone. unfold state_after, result_of.
  destruct (o_extensible o) eqn:Hext.
  - rewrite (store_fresh s l o T Hl Hext Hnone). cbn [fst snd].
    set (o1 := set_props o (assoc_set (KSymbol CachedType) (hidden T) (o_props o))).
    set (s1 := State _ _ _ _).
    assert (Hl1 : heap s1 !! l = Some o1) by (apply (heap_lookup_insert _ _ o), Hl).
    assert (Hc1 : own_property o1 (KSymbol CachedType) = Some (hidden T))
      by apply assoc_get_set_eq.
    assert (Hcached : cached (heap s1) l T) by (exists o1; auto).
    split_and!; [reflexivity | | discriminate]. intros _. split_and!.
    + apply restore_cached, Hcached.
    + intros T'. apply (store_again s1 l o1 T T' Hl1 Hc1).
    + intros cs. apply restore_cached.
      apply (cached_extends s1); [apply run_calls_extends | exact Hcached].
  - rewrite (store_refused s l o T Hl Hext Hnone). cbn [fst snd].
    split_and!; [reflexivity | discriminate |]. intros _. split_and!.
    + reflexivity.
    + intros T'. apply (store_refused s l o T' Hl Hext Hnone).
    + apply (restore_none s l o Hl Hnone).
Qed.

(** In the loaded module: on the host's [Object] function, and on a
    frozen object. *)
Lemma store_restore_write_once_witness :
  (let f := 2 in
   let T := P_Function (Primitives initial) in
   let s1 := state_after (store (VObject f) T) initial in
   result_of (store (VObject f) T) initial = Ok tt
   /\ restore (VObject f) s1 = (Ok T, s1)
   /\ (forall T', store (VObject f) T' s1 = (Ok tt, s1))
   /\ (forall cs, restore (VObject f) (run_calls cs s1) = (Ok T, run_calls cs s1)))
  /\ (let s := state_after frozen_object initial in
      (forall T', store (VObject 33) T' s = (Ok tt, s))
      /\ restore (VObject 33) s = (Ok VUndefined, s)).
Proof.
  split.
  - intros f T s1.
    assert (Hl : heap initial !! 2
                 = Some (builtin_function "Object" [prototype_of Object_prototype]))
      by (vm_compute; reflexivity).
    destruct (store_restore_write_once initial 2 _ T Hl eq_refl) as (Hstore & Hext & _).
    split; [exact Hstore | exact (Hext eq_refl)].
  - intros s.
    assert (Hl : heap s !! 33 = Some (Object (Some Object_prototype) Ordinary false []))
      by (vm_compute; reflexivity).
    destruct (store_restore_write_once s 33 _ VNull Hl eq_refl) as (_ & _ & Hfrozen).
    destruct (Hfrozen eq_refl) as (_ & Hstore & Hrestore).
    split; [exact Hstore | exact Hrestore].
Defined.

(** ** The pattern of [parse] never leaves an opening bracket in the
    parameter list *)

Lemma first_match_app {A B} (f : A -> option B) (xs ys : list A) :
  first_match f (xs ++ ys) =
    match first_match f xs with Some b => Some b | None => first_match f ys end.
Proof.
  induction xs as [|x xs IH]; cbn; [reflexivity|]. destruct (f x); [reflexivity | exact IH].
Qed.

Lemma first_match_map {A B C} (f : B -> option C) (g : A -> B) (xs : list A) :
  first_match f (map g xs) = first_match (fun x => f (g x)) xs.
Proof.
  induction xs as [|x xs IH]; cbn; [reflexivity|]. destruct (f (g x)); [reflexivity | exact IH].
Qed.

Lemma first_match_ext {A B} (f g : A -> option B) (xs : list A) :
  (forall x, f x = g x) -> first_match f xs = first_match g xs.
Proof.
  intros Hfg. induction xs as [|x xs IH]; cbn; [reflexivity|].
  rewrite Hfg, IH. reflexivity.
Qed.

Lemma first_match_found {A B} (f : A -> option B) (xs : list A) (x : A) :
  In x xs -> f x <> None -> first_match f xs <> None.
Proof.
  induction xs as [|y xs IH]; cbn; [tauto|]. intros [-> | Hin] Hx.
  - destruct (f x); [discriminate | contradiction].
  - destruct (f y); [discriminate | auto].
Qed.

Lemma string_app_cons (c : ascii) (a b : string) :
  String c a +:+ b = String c (a +:+ b).
Proof. reflexivity. Qed.

Lemma string_app_assoc (a b c : string) : (a +:+ b) +:+ c = a +:+ b +:+ c.
Proof.
  induction a as [|x a IH]; [reflexivity|]. rewrite !string_app_cons, IH. reflexivity.
Qed.

Lemma string_forall_app (P : ascii -> bool) (a b : string) :
  string_forall P (a +:+ b) = string_forall P a && string_forall P b.
Proof.
  induction a as [|x a IH]; [reflexivity|].
  rewrite string_app_cons. cbn [string_forall]. rewrite IH. apply andb_assoc.
Qed.

Lemma string_forall_false (P : ascii -> bool) (s : string) :
  string_forall P s = false ->
  exists x c y, s = x +:+ String c y /\ P c = false.
Proof.
  induction s as [|c s IH]; simpl; [discriminate|].
  destruct (P c) eqn:Hc; simpl.
  - intros Hs. destruct (IH Hs) as (x & c' & y & -> & Hc').
    exists (String c x), c', y. auto.
  - intros _. exists "", c, s. auto.
Qed.

Lemma after_path_cons (p : string) (c : ascii) (a r : string) :
  after_path p (String c a, r) = after_path (p +:+ String c "") (a, r).
Proof.
  unfold after_path. cbn [fst snd]. destruct r as [|c' rest]; [reflexivity|].
  destruct (Ascii.eqb c' "<"); [|reflexivity].
  apply first_match_ext. intros g2. rewrite string_app_assoc. reflexivity.
Qed.

Lemma match_generic_after_path (fqn : string) :
  match_generic fqn = first_match (after_path "") (dot_star fqn).
Proof. reflexivity. Qed.

(** The candidates of a greedy group on [c :: s]: those on [s] with [c]
    in front, then the empty one. *)
Lemma after_path_dot_star_cons (p : string) (c : ascii) (s : string) :
  line_terminator c = false ->
  first_match (after_path p) (dot_star (String c s)) =
    match first_match (after_path (p +:+ String c "")) (dot_star s) with
    | Some b => Some b
    | None => after_path p ("", String c s)
    end.
Proof.
  intros Hc. cbn [dot_star]. rewrite Hc, first_match_app, first_match_map.
  rewrite (first_match_ext _ (after_path (p +:+ String c ""))).
  - destruct (first_match _ _); [reflexivity|]. cbn [first_match].
    destruct (after_path p ("", String c s)); reflexivity.
  - intros [a r]. apply after_path_cons.
Qed.

Lemma dot_star_taken (s a r : string) :
  In (a, r) (dot_star s) -> string_forall not_terminator a = true.
Proof.
  revert a r. induction s as [|c s IH]; intros a r; cbn [dot_star].
  - intros [[= <- <-] | []]. reflexivity.
  - destruct (line_terminator c) eqn:Hc.
    + intros [[= <- <-] | []]. reflexivity.
    + intros Hin. apply in_app_or in Hin. destruct Hin as [Hin | [[= <- <-] | []]];
        [|reflexivity].
      apply in_map_iff in Hin. destruct Hin as ([a' r'] & [= <- <-] & Hin').
      simpl. unfold not_terminator at 1. rewrite Hc. simpl. eapply IH, Hin'.
Qed.

Lemma dot_star_empty (s : string) : In ("", s) (dot_star s).
Proof.
  destruct s as [|c s]; cbn [dot_star]; [left; reflexivity|].
  destruct (line_terminator c); [left; reflexivity|].
  apply in_or_app. right. left. reflexivity.
Qed.

Lemma dot_star_prefix (a r : string) :
  string_forall not_terminator a = true -> In (a, r) (dot_star (a +:+ r)).
Proof.
  induction a as [|c a IH]; simpl; [intros _; apply dot_star_empty|].
  unfold not_terminator at 1. destruct (line_terminator c); simpl; [discriminate|].
  intros Ha. apply in_or_app. left.
  apply in_map_iff. exists (a, r). split; [reflexivity | apply IH, Ha].
Qed.

(** A text with an opening bracket, nothing but plain characters around
    it and a closing bracket at its end is matched, whatever was taken
    before. *)
Lemma after_path_matches (p x y : string) :
  string_forall not_terminator x = true ->
  string_forall not_terminator y = true ->
  first_match (after_path p) (dot_star (x +:+ "<" +:+ y +:+ ">")) <> None.
Proof.
  intros Hx Hy.
  apply (first_match_found _ _ (x, "<" +:+ y +:+ ">")); [apply dot_star_prefix, Hx|].
  unfold after_path. cbn [fst snd]. change ("<" +:+ y +:+ ">") with (String "<" (y +:+ ">")).
  cbn [Ascii.eqb Bool.eqb]. cbv beta iota.
  apply (first_match_found _ _ (y, ">")); [apply dot_star_prefix, Hy|].
  cbn [fst snd]. discriminate.
Qed.

Lemma after_path_no_open_bracket (fqn p path typeParams : string) :
  first_match (after_path p) (dot_star fqn) = Some (path, typeParams) ->
  string_forall not_open_bracket typeParams = true.
Proof.
  revert p. induction fqn as [|c s IH]; intros p.
  - cbn. discriminate.
  - destruct (line_terminator c) eqn:Hc.
    + cbn [dot_star]. rewrite Hc. cbn [first_match]. unfold after_path. cbn [fst snd].
      destruct (Ascii.eqb c "<") eqn:Hlt; [|discriminate].
      apply Ascii.eqb_eq in Hlt. subst c. discriminate Hc.
    + rewrite (after_path_dot_star_cons p c s Hc).
      destruct (first_match (after_path (p +:+ String c "")) (dot_star s)) as [b|] eqn:Hrec.
      * intros [= ->]. eapply IH, Hrec.
      * unfold after_path at 1. cbn [fst snd].
        destruct (Ascii.eqb c "<") eqn:Hlt; [|discriminate]. intros Hinner.
        destruct (first_match_some _ _ _ Hinner) as ([g2 r3] & Hin & Hg2).
        cbn [fst snd] in Hg2.
        destruct (String.eqb r3 ">") eqn:Hr3; [|discriminate].
        apply String.eqb_eq in Hr3. subst r3. injection Hg2 as _ <-.
        destruct (string_forall not_open_bracket g2) eqn:Hopen; [reflexivity|].
        exfalso.
        destruct (string_forall_false _ _ Hopen) as (x & c' & y & -> & Hc').
        unfold not_open_bracket in Hc'. apply negb_false_iff, Ascii.eqb_eq in Hc'. subst c'.
        pose proof (dot_star_taken _ _ _ Hin) as Htaken.
        rewrite string_forall_app in Htaken. simpl in Htaken.
        apply andb_true_iff in Htaken. destruct Htaken as [Hx Hy].
        apply (after_path_matches (p +:+ String c "") x y Hx Hy).
        rewrite <- Hrec. f_equal.
        rewrite (dot_star_splits _ _ _ Hin), string_app_assoc. reflexivity.
Qed.

(** Whatever the name, the parameter list that the pattern of [parse]
    yields has no opening bracket: the first group takes everything up
    to the last one.  The depth counter of the loop therefore never
    rises above 0. *)
Lemma match_generic_no_open_bracket (fqn path typeParams : string) :
  match_generic fqn = Some (path, typeParams) ->
  string_forall not_open_bracket typeParams = true.
Proof. rewrite match_generic_after_path. apply after_path_no_open_bracket. Qed.

(** * Further properties of the module *)

(** ** Running a sequence of calls *)

Lemma bind_ok {A B} (c : M A) (k : A -> M B) (s s1 : state) (a : A) :
  c s = (Ok a, s1) -> bind c k s = k a s1.
Proof. intros Hc. unfold bind. rewrite Hc. reflexivity. Qed.

Lemma bind_throw {A B} (c : M A) (k : A -> M B) (s s1 : state) (e : error) :
  c s = (Throw e, s1) -> bind c k s = (Throw e, s1).
Proof. intros Hc. unfold bind. rewrite Hc. reflexivity. Qed.

Lemma hashOf_own (s : state) (l : loc) (o : object) (q : property) :
  heap s !! l = Some o ->
  own_property o (KSymbol TypeSignature) = Some q ->
  hashOf (VObject l) s = (Ok (p_value q), s).
Proof.
  intros Hl Hq. unfold hashOf, Reflect_get.
  rewrite (get_object_own _ _ _ _ _ Hl (array_key_symbol o _) Hq). reflexivity.
Qed.

Lemma typeof_not_callable (h : list object) (l : loc) (o : object) :
  h !! l = Some o -> o_kind o <> Callable -> typeof h (VObject l) = "object".
Proof.
  intros Hl Hk. unfold typeof. rewrite Hl.
  destruct o as [pr [| |items] ex ps]; simpl in Hk; congruence.
Qed.

Lemma isType_own (s : state) (l : loc) (o : object) (q : property) :
  heap s !! l = Some o ->
  o_kind o <> Callable ->
  own_property o (KSymbol TypeSignature) = Some q ->
  isType (VObject l) s = (Ok (truthy (p_value q)), s).
Proof.
  intros Hl Hk Hq. unfold isType, bind, read, ret, get_value.
  rewrite (typeof_not_callable _ _ _ Hl Hk). cbn [String.eqb Ascii.eqb Bool.eqb].
  cbv beta. rewrite (get_object_own _ _ _ _ _ Hl (array_key_symbol o _) Hq). reflexivity.
Qed.

Lemma compare_own (s : state) (a b : loc) (oa ob : object) (qa qb : property) :
  heap s !! a = Some oa -> own_property oa (KSymbol TypeSignature) = Some qa ->
  heap s !! b = Some ob -> own_property ob (KSymbol TypeSignature) = Some qb ->
  compare (VObject a) (VObject b) s = (Ok (bool_decide (p_value qa = p_value qb)), s).
Proof.
  intros Ha Hqa Hb Hqb. unfold compare.
  rewrite (bind_ok _ _ _ _ _ (hashOf_own s a oa qa Ha Hqa)).
  rewrite (bind_ok _ _ _ _ _ (hashOf_own s b ob qb Hb Hqb)). reflexivity.
Qed.

Lemma lookup_before_end (h : list object) (o o' : object) (l : loc) :
  h !! l = Some o -> (h ++ [o']) !! l = Some o.
Proof. intros Hl. rewrite lookup_app_l; [exact Hl | eapply lookup_lt_Some, Hl]. Qed.

Lemma createComplex_spec (s : state) (base args : value) :
  createComplex base args s =
    (Ok (VObject (length (heap s))),
     State (heap s ++ [complex_object (next_symbol s) base args]) (S (next_symbol s))
       (Names s) (Primitives s)).
Proof.
  unfold createComplex. rewrite (bind_ok _ _ _ _ _ (create_spec s)).
  unfold bind, ret, Reflect_defineProperty. cbn [heap next_symbol Names Primitives].
  rewrite lookup_at_end.
  change (define_own (type_object (next_symbol s)) (KSymbol TypeReference) (hidden base))
    with (Some (Object (Some Object_prototype) Ordinary true
                  [(KSymbol TypeSignature, hidden (VSymbol (next_symbol s)));
                   (KSymbol TypeReference, hidden base)])).
  cbn [heap next_symbol Names Primitives]. rewrite insert_at_end, lookup_at_end.
  match goal with
  | |- context [define_own ?o (KSymbol TypeArguments) (hidden args)] =>
      change (define_own o (KSymbol TypeArguments) (hidden args))
        with (Some (complex_object (next_symbol s) base args))
  end.
  cbn [heap next_symbol Names Primitives]. rewrite insert_at_end. reflexivity.
Qed.

(** ** The identity kernel: [create], [createComplex], [compare] *)

(** X1. In every state two calls of [create] give two different
    objects; each is a type for [isType], [compare] tells them apart and
    equates each with itself. *)
Theorem create_gives_distinct_types (s : state) :
  result_of
    (let* a := create in
     let* b := create in
     let* type_a := isType a in
     let* type_b := isType b in
     let* same := compare a b in
     let* self := compare a a in
     ret (bool_decide (a = b), type_a, type_b, same, self)) s
  = Ok (false, true, true, false, true).
Proof.
  unfold result_of.
  rewrite (bind_ok _ _ _ _ _ (create_spec s)).
  set (s1 := State _ _ _ _).
  rewrite (bind_ok _ _ _ _ _ (create_spec s1)).
  set (s2 := State _ _ _ _).
  set (a := length (heap s)). set (b := length (heap s1)).
  assert (Ha : heap s2 !! a = Some (type_object (next_symbol s))).
  { apply lookup_before_end, lookup_at_end. }
  assert (Hb : heap s2 !! b = Some (type_object (next_symbol s1))) by apply lookup_at_end.
  assert (Hab : a <> b).
  { unfold a, b, s1. cbn [heap]. rewrite length_app. cbn. lia. }
  rewrite (bind_ok _ _ _ _ _ (isType_own s2 a _ _ Ha ltac:(discriminate) eq_refl)).
  rewrite (bind_ok _ _ _ _ _ (isType_own s2 b _ _ Hb ltac:(discriminate) eq_refl)).
  rewrite (bind_ok _ _ _ _ _ (compare_own s2 a b _ _ _ _ Ha eq_refl Hb eq_refl)).
  rewrite (bind_ok _ _ _ _ _ (compare_own s2 a a _ _ _ _ Ha eq_refl Ha eq_refl)).
  cbn [ret fst p_value hidden truthy next_symbol s1].
  rewrite (bool_decide_eq_false_2 (VObject a = VObject b)) by congruence.
  rewrite (bool_decide_eq_false_2 (VSymbol _ = VSymbol _)) by (intros [=]; lia).
  rewrite bool_decide_eq_true_2 by reflexivity. reflexivity.
Qed.

(** An object that carries a property which is neither writable nor
    configurable carries it in every later state, and is of the same
    kind there. *)
Lemma hidden_property_kept (s s' : state) (l : loc) (o : object) :
  state_extends s s' -> heap s !! l = Some o ->
  exists o', heap s' !! l = Some o' /\ o_kind o' = o_kind o
             /\ forall k v, own_property o k = Some (hidden v) ->
                            own_property o' k = Some (hidden v).
Proof.
  intros (Hheap & _ & _) Hl. destruct (Hheap l o Hl) as (o' & Hl' & _ & Hk & _ & Hkeep).
  exists o'. split_and!; [exact Hl' | exact Hk|].
  intros k v Hv. apply Hkeep; [exact Hv | reflexivity..].
Qed.

Lemma baseType_own (s : state) (l : loc) (o : object) (q : property) :
  heap s !! l = Some o ->
  own_property o (KSymbol TypeReference) = Some q ->
  baseType (VObject l) s =
    (Ok (if truthy (p_value q) then p_value q else VObject l), s).
Proof.
  intros Hl Hq. unfold baseType, bind, get_value, ret.
  rewrite (get_object_own _ _ _ _ _ Hl (array_key_symbol o _) Hq). reflexivity.
Qed.

Lemma typeArguments_own (s : state) (l : loc) (o : object) (q : property) :
  heap s !! l = Some o ->
  own_property o (KSymbol TypeArguments) = Some q ->
  typeArguments (VObject l) s = (Ok (p_value q), s).
Proof.
  intros Hl Hq. unfold typeArguments, Reflect_get.
  rewrite (get_object_own _ _ _ _ _ Hl (array_key_symbol o _) Hq). reflexivity.
Qed.

Lemma nameOf_own (s : state) (l : loc) (o : object) (q : property) :
  heap s !! l = Some o ->
  own_property o (KSymbol Symbol_toStringTag) = Some q ->
  nameOf (VObject l) s = (Ok (p_value q), s).
Proof.
  intros Hl Hq. unfold nameOf, Reflect_get.
  rewrite (get_object_own _ _ _ _ _ Hl (array_key_symbol o _) Hq). reflexivity.
Qed.

(** X2. A complex type keeps what it was created with.  After
    [createComplex(base, args)] and any sequence of calls of the
    exported functions, the new object is a type, [hashOf] is the symbol
    drawn at its creation, [baseType] returns [base] (the type itself
    when [base] is falsy) and [typeArguments] returns [args]. *)
Theorem complex_type_is_fixed (s : state) (base args : value) (cs : list call) :
  let c := VObject (length (heap s)) in
  let s' := run_calls cs (state_after (createComplex base args) s) in
  result_of (createComplex base args) s = Ok c
  /\ isType c s' = (Ok true, s')
  /\ hashOf c s' = (Ok (VSymbol (next_symbol s)), s')
  /\ baseType c s' = (Ok (if truthy base then base else c), s')
  /\ typeArguments c s' = (Ok args, s').
Proof.
  intros c s'. subst c s'. unfold state_after, result_of.
  rewrite createComplex_spec. cbn [fst snd].
  set (s1 := State _ _ _ _). set (s' := run_calls cs s1).
  assert (Hc : heap s1 !! length (heap s) = Some (complex_object (next_symbol s) base args))
    by apply lookup_at_end.
  destruct (hidden_property_kept s1 s' _ _ (run_calls_extends cs s1) Hc)
    as (o' & Hl' & Hkind & Hkeep).
  assert (Hk : o_kind o' <> Callable) by (rewrite Hkind; discriminate).
  split_and!.
  - reflexivity.
  - apply (isType_own s' _ o' (hidden (VSymbol (next_symbol s))) Hl' Hk).
    apply Hkeep. reflexivity.
  - apply (hashOf_own s' _ o' (hidden (VSymbol (next_symbol s))) Hl').
    apply Hkeep. reflexivity.
  - apply (baseType_own s' _ o' (hidden base) Hl'). apply Hkeep. reflexivity.
  - apply (typeArguments_own s' _ o' (hidden args) Hl'). apply Hkeep. reflexivity.
Qed.

Lemma named_fresh_spec (s : state) (name : value) :
  assoc_get name (Names s) = None ->
  named name s =
    (Ok (VObject (length (heap s))),
     State (heap s ++ [named_object (next_symbol s) name]) (S (next_symbol s))
       (assoc_set name (length (heap s)) (Names s)) (Primitives s)).
Proof.
  intros Hnone. unfold named, Names_get, bind at 1, read. rewrite Hnone.
  cbn [truthy negb]. rewrite (bind_ok _ _ _ _ _ (create_spec s)).
  unfold bind, ret, Names_set, Reflect_defineProperty. cbn [heap].
  rewrite lookup_at_end, define_tag_on_new.
  cbn [heap next_symbol Names Primitives]. rewrite insert_at_end. reflexivity.
Qed.

(** X3. A name that [Names] does not hold yet: [named] makes a new
    type, puts it in [Names] under the name, and the type's display
    name is that name, also after any sequence of calls of the exported
    functions, after which the name still has an entry. *)
Theorem named_type_keeps_its_name (s : state) (name : value) (cs : list call) :
  assoc_get name (Names s) = None ->
  let T := length (heap s) in
  let s1 := state_after (named name) s in
  let s' := run_calls cs s1 in
  result_of (named name) s = Ok (VObject T)
  /\ assoc_get name (Names s1) = Some T
  /\ nameOf (VObject T) s' = (Ok name, s')
  /\ isType (VObject T) s' = (Ok true, s')
  /\ is_Some (assoc_get name (Names s')).
Proof.
  intros Hnone T s1 s'. subst T s1 s'. unfold state_after, result_of.
  rewrite (named_fresh_spec s name Hnone). cbn [fst snd].
  set (s1 := State _ _ _ _). set (s' := run_calls cs s1). set (T := length (heap s)).
  assert (HT : heap s1 !! T = Some (named_object (next_symbol s) name))
    by apply lookup_at_end.
  pose proof (run_calls_extends cs s1) as Hext.
  destruct (hidden_property_kept s1 s' _ _ Hext HT) as (o' & Hl' & Hkind & Hkeep).
  assert (Hk : o_kind o' <> Callable) by (rewrite Hkind; discriminate).
  assert (Hentry : assoc_get name (Names s1) = Some T) by apply assoc_get_set_eq.
  split_and!.
  - reflexivity.
  - exact Hentry.
  - apply (nameOf_own s' _ o' (hidden name) Hl'). apply Hkeep. reflexivity.
  - apply (isType_own s' _ o' (hidden (VSymbol (next_symbol s))) Hl' Hk).
    apply Hkeep. reflexivity.
  - destruct Hext as (_ & Hnames & _). apply Hnames. rewrite Hentry. eauto.
Qed.

(** In the loaded module, on the name ["Foo"], followed by a parse that
    uses the new type and an attempt to store on it. *)
Lemma named_type_keeps_its_name_witness :
  let cs := [Call_type (VString "Bar<Foo>"); Call_store (VObject 33) VNull] in
  let s1 := state_after (named (VString "Foo")) initial in
  let s' := run_calls cs s1 in
  result_of (named (VString "Foo")) initial = Ok (VObject 33)
  /\ assoc_get (VString "Foo") (Names s1) = Some 33
  /\ nameOf (VObject 33) s' = (Ok (VString "Foo"), s')
  /\ isType (VObject 33) s' = (Ok true, s')
  /\ is_Some (assoc_get (VString "Foo") (Names s')).
Proof.
  refine (named_type_keeps_its_name initial (VString "Foo")
            [Call_type (VString "Bar<Foo>"); Call_store (VObject 33) VNull] _).
  vm_compute. reflexivity.
Defined.

(** X4. [hashOf], [nameOf], [typeArguments] and [compare] go through
    [Reflect.get]: on a first argument that is not an object ([null]
    and [undefined] included) they throw a [TypeError] and leave the
    state as it is. *)
Theorem identity_functions_need_an_object (s : state) (v r : value) :
  ~ is_object v ->
  hashOf v s = (Throw TypeError, s)
  /\ nameOf v s = (Throw TypeError, s)
  /\ typeArguments v s = (Throw TypeError, s)
  /\ compare v r s = (Throw TypeError, s).
Proof.
  intros Hv. destruct v; try (split_and!; reflexivity).
  exfalso. apply Hv. eexists. reflexivity.
Qed.

(** On [undefined], with a type as the other argument of [compare]. *)
Lemma identity_functions_need_an_object_witness :
  hashOf VUndefined initial = (Throw TypeError, initial)
  /\ nameOf VUndefined initial = (Throw TypeError, initial)
  /\ typeArguments VUndefined initial = (Throw TypeError, initial)
  /\ compare VUndefined (VObject 22) initial = (Throw TypeError, initial).
Proof.
  refine (identity_functions_need_an_object initial VUndefined (VObject 22) _).
  intros [l Hl]. discriminate Hl.
Defined.

(** X5. [compare] does not ask whether its arguments are types: two
    objects of which [hashOf] is [undefined] are equal for it, also
    when they are two different objects. *)
Theorem compare_of_objects_without_signature (s : state) (a b : loc) :
  get_object (heap s) a (KSymbol TypeSignature) = Ok VUndefined ->
  get_object (heap s) b (KSymbol TypeSignature) = Ok VUndefined ->
  compare (VObject a) (VObject b) s = (Ok true, s)
  /\ isType (VObject a) s = (Ok false, s)
  /\ isType (VObject b) s = (Ok false, s).
Proof.
  intros Ha Hb.
  assert (Hno : forall l, get_object (heap s) l (KSymbol TypeSignature) = Ok VUndefined ->
            isType (VObject l) s = (Ok false, s)).
  { intros l Hl. unfold isType, bind, read, ret, get_value.
    destruct (typeof_object_or_function (heap s) l) as [-> | ->];
      cbn [String.eqb Ascii.eqb Bool.eqb]; cbv beta; [rewrite Hl|]; reflexivity. }
  split_and!; [|apply Hno, Ha | apply Hno, Hb].
  unfold compare, hashOf, Reflect_get, bind, ret. rewrite Ha, Hb. reflexivity.
Qed.

(** The host's [Object] and [Function]. *)
Lemma compare_of_objects_without_signature_witness :
  compare (VObject host_Object) (VObject host_Function) initial = (Ok true, initial)
  /\ isType (VObject host_Object) initial = (Ok false, initial)
  /\ isType (VObject host_Function) initial = (Ok false, initial).
Proof.
  refine (compare_of_objects_without_signature initial host_Object host_Function _ _);
    vm_compute; reflexivity.
Defined.

(** ** The value cache on values that are no objects *)

(** X6. On a primitive value [store] does nothing and [restore] returns
    [undefined]; neither throws. *)
Theorem store_restore_on_primitive (s : state) (v t : value) :
  is_primitive v = true ->
  store v t s = (Ok tt, s) /\ restore v s = (Ok VUndefined, s).
Proof.
  intros Hv. destruct v; try discriminate; split; reflexivity.
Qed.

Lemma store_restore_on_primitive_witness :
  store (VNumber 42) (VObject 23) initial = (Ok tt, initial)
  /\ restore (VNumber 42) initial = (Ok VUndefined, initial).
Proof.
  refine (store_restore_on_primitive initial (VNumber 42) (VObject 23) _). reflexivity.
Defined.

(** X7. [typeof null] is ["object"], so [store] and [restore] hand
    [null] to [Reflect.defineProperty] and
    [Reflect.getOwnPropertyDescriptor]: both throw a [TypeError], in
    every state. *)
Theorem store_restore_on_null_throw (s : state) (t : value) :
  store VNull t s = (Throw TypeError, s) /\ restore VNull s = (Throw TypeError, s).
Proof. split; reflexivity. Qed.

(** ** The resolver on primitives and on types *)

(** X8. In every state [typeOf] of a primitive value (a string, a
    number, a bigint, a boolean, a symbol or [undefined]) is
    [Primitives.Unknown]: the table of primitive names holds [undefined]
    under the [typeof] of each, so the fallback of the last line is
    always taken.  The state is unchanged: nothing is cached for a
    primitive. *)
Theorem typeOf_of_primitive_values (s : state) (v : value) :
  is_primitive v = true ->
  typeOf v s = (Ok (P_Unknown (Primitives s)), s).
Proof.
  intros Hv. destruct v as [| |b|z|z|x|n|l]; try discriminate; reflexivity.
Qed.

(** [typeOf(42)] in the loaded module is not [Primitives.Number]. *)
Lemma typeOf_of_primitive_values_witness :
  typeOf (VNumber 42) initial = (Ok (P_Unknown (Primitives initial)), initial)
  /\ P_Unknown (Primitives initial) <> P_Number (Primitives initial).
Proof.
  split; [apply (typeOf_of_primitive_values initial (VNumber 42)); reflexivity|].
  vm_compute. discriminate.
Defined.

(** X9. [typeOf] asks [isType] first: for a type it returns
    [Primitives.Type], whatever was stored on it. *)
Theorem typeOf_of_a_type (s : state) (t : value) :
  result_of
    (let* c := create in
     let* _ := store c t in
     let* cached := restore c in
     let* r := typeOf c in
     ret (cached, r)) s
  = Ok (t, P_Type (Primitives s)).
Proof.
  unfold result_of. rewrite (bind_ok _ _ _ _ _ (create_spec s)).
  set (s1 := State _ _ _ _). set (c := length (heap s)).
  assert (Hc : heap s1 !! c = Some (type_object (next_symbol s))) by apply lookup_at_end.
  rewrite (bind_ok _ _ _ _ _ (store_fresh s1 c _ t Hc eq_refl eq_refl)).
  set (o2 := set_props _ _). set (s2 := State _ _ _ _).
  assert (Hc2 : heap s2 !! c = Some o2) by (apply (heap_lookup_insert _ _ _ _ Hc)).
  assert (Htype : typeOf (VObject c) s2 = (Ok (P_Type (Primitives s)), s2)).
  { unfold typeOf.
    rewrite (bind_ok _ _ _ _ _ (isType_own s2 c o2 (hidden (VSymbol (next_symbol s)))
                                  Hc2 ltac:(discriminate) eq_refl)).
    reflexivity. }
  rewrite (bind_ok _ _ _ _ _ (restore_entry s2 c o2 (hidden t) Hc2 eq_refl)).
  cbv beta. rewrite (bind_ok _ _ _ _ _ Htype). reflexivity.
Qed.

(** ** References that [type] refuses *)

(** X10. In every state [type] throws the module's invalid-reference
    error, with the reference in it, for [undefined], a boolean, a
    number and a bigint; [complex] with such a base throws the same
    error.  The state is left as it is. *)
Theorem type_refuses_primitives (s : state) (v : value) (args : list value) :
  match v with
  | VUndefined | VBoolean _ | VNumber _ | VBigInt _ => True
  | _ => False
  end ->
  type v s = (Throw (InvalidTypeReference v), s)
  /\ complex v args s = (Throw (InvalidTypeReference v), s).
Proof.
  intros Hv. destruct v; try contradiction; split; reflexivity.
Qed.

Lemma type_refuses_primitives_witness :
  type (VNumber 5) initial = (Throw (InvalidTypeReference (VNumber 5)), initial)
  /\ complex (VNumber 5) [VString "string"] initial
     = (Throw (InvalidTypeReference (VNumber 5)), initial).
Proof.
  refine (type_refuses_primitives initial (VNumber 5) [VString "string"] _). exact I.
Defined.

(** ** The resolver on objects *)

Lemma isType_falsy (s : state) (l : loc) (v : value) :
  get_object (heap s) l (KSymbol TypeSignature) = Ok v -> truthy v = false ->
  isType (VObject l) s = (Ok false, s).
Proof.
  intros Hl Hv. unfold isType, bind, read, ret, get_value.
  destruct (typeof_object_or_function (heap s) l) as [-> | ->];
    cbn [String.eqb Ascii.eqb Bool.eqb]; cbv beta; [rewrite Hl, Hv|]; reflexivity.
Qed.

Lemma typeOf_object_step (s : state) (l : loc) (o : object) :
  heap s !! l = Some o -> o_kind o <> Callable ->
  isType (VObject l) s = (Ok false, s) ->
  own_property o (KSymbol CachedType) = None ->
  typeOf (VObject l) s = getObjectType (VObject l) s.
Proof.
  intros Hl Hk Hty Hnone. unfold typeOf. rewrite (bind_ok _ _ _ _ _ Hty).
  unfold bind at 1, read. cbv beta iota.
  rewrite (typeof_not_callable _ _ _ Hl Hk). cbn [String.eqb Ascii.eqb Bool.eqb].
  rewrite (bind_ok _ _ _ _ _ (restore_none s l o Hl Hnone)). reflexivity.
Qed.

Lemma isPrototype_own (s : state) (l : loc) (o : object) :
  heap s !! l = Some o -> o_kind o <> Callable ->
  isPrototype (VObject l) s =
    (Ok (bool_decide (is_Some (own_property o (KString "constructor")))), s).
Proof.
  intros Hl Hk. unfold isPrototype, bind, read, ret.
  rewrite (typeof_not_callable _ _ _ Hl Hk). cbn [String.eqb Ascii.eqb Bool.eqb].
  cbv beta. rewrite Hl. reflexivity.
Qed.

(** X11. A value that carries a truthy cached type and is not itself a
    type: [typeOf] returns the cached type and changes nothing. *)
Theorem typeOf_returns_cached (s : state) (l : loc) (T : value) :
  cached (heap s) l T ->
  truthy T = true ->
  isType (VObject l) s = (Ok false, s) ->
  typeOf (VObject l) s = (Ok T, s).
Proof.
  intros Hc HT Hty. unfold typeOf. rewrite (bind_ok _ _ _ _ _ Hty).
  unfold bind at 1, read. cbv beta iota.
  destruct (typeof_object_or_function (heap s) l) as [-> | ->];
    cbn [String.eqb Ascii.eqb Bool.eqb];
    rewrite (bind_ok _ _ _ _ _ (restore_cached s l T Hc)), HT; reflexivity.
Qed.

(** The host's [Object] function, after a [store] on it. *)
Lemma typeOf_returns_cached_witness :
  let s := state_after (store (VObject host_Object) (VObject 30)) initial in
  typeOf (VObject host_Object) s = (Ok (VObject 30), s).
Proof.
  intros s.
  refine (typeOf_returns_cached s host_Object (VObject 30) _ _ _).
  - eexists. split; vm_compute; reflexivity.
  - reflexivity.
  - vm_compute. reflexivity.
Defined.

(** X12. An extensible object whose prototype is [Object.prototype],
    that is no type, owns no [constructor] and has no cached type:
    [typeOf] returns [Primitives.Object] and caches it on the object;
    [Names] is not touched. *)
Theorem typeOf_of_plain_object (s : state) (l : loc) (o : object) (v : value) :
  heap s !! l = Some o ->
  o_kind o <> Callable ->
  o_proto o = Some Object_prototype ->
  o_extensible o = true ->
  own_property o (KSymbol CachedType) = None ->
  own_property o (KString "constructor") = None ->
  get_object (heap s) l (KSymbol TypeSignature) = Ok v -> truthy v = false ->
  exists s1,
    typeOf (VObject l) s = (Ok (P_Object (Primitives s)), s1)
    /\ cached (heap s1) l (P_Object (Primitives s))
    /\ Names s1 = Names s.
Proof.
  intros Hl Hk Hp Hext Hnone Hctor Hsig Hv.
  rewrite (typeOf_object_step s l o Hl Hk (isType_falsy s l v Hsig Hv) Hnone).
  unfold getObjectType. rewrite (bind_ok _ _ _ _ _ (isPrototype_own s l o Hl Hk)).
  rewrite Hctor. rewrite bool_decide_eq_false_2 by (intros [x Hx]; discriminate).
  unfold getInstanceType. rewrite (bind_ok _ _ _ _ _ (restore_none s l o Hl Hnone)).
  cbn [truthy negb].
  assert (Hproto : Reflect_getPrototypeOf (VObject l) s = (Ok (VObject Object_prototype), s)).
  { unfold Reflect_getPrototypeOf. rewrite Hl, Hp. reflexivity. }
  rewrite (bind_ok _ _ _ _ _ Hproto).
  rewrite bool_decide_eq_false_2 by (intros H; apply H; reflexivity).
  unfold bind at 1, read. cbv beta iota.
  rewrite (bind_ok _ _ _ _ _ (store_fresh s l o _ Hl Hext Hnone)).
  eexists. split; [reflexivity|]. split; [|reflexivity].
  eexists. split; [apply (heap_lookup_insert _ _ o), Hl | apply assoc_get_set_eq].
Qed.

(** An object literal, in the loaded module. *)
Lemma typeOf_of_plain_object_witness :
  let s := state_after (new_object []) initial in
  exists s1,
    typeOf (VObject 33) s = (Ok (P_Object (Primitives s)), s1)
    /\ cached (heap s1) 33 (P_Object (Primitives s))
    /\ Names s1 = Names s.
Proof.
  intros s.
  refine (typeOf_of_plain_object s 33 (Object (Some Object_prototype) Ordinary true [])
            VUndefined _ _ _ _ _ _ _ _);
    first [discriminate | vm_compute; reflexivity].
Defined.

(** X13. The prototype object of a class whose constructor carries a
    truthy cached type [T]: [typeOf] of the prototype is [T], and
    nothing is cached on the prototype: the state is unchanged. *)
Theorem typeOf_of_class_prototype (s : state) (f p : loc) (po : object) (T : value) :
  is_class (heap s) f p ->
  cached (heap s) f T ->
  truthy T = true ->
  heap s !! p = Some po ->
  o_kind po <> Callable ->
  own_property po (KSymbol CachedType) = None ->
  typeOf (VObject p) s = (Ok T, s).
Proof.
  intros (_ & _ & _ & (po' & q & Hp' & Hctor & Hq) & Hsig) Hc HT Hp Hk Hnone.
  assert (po' = po) by congruence. subst po'.
  rewrite (typeOf_object_step s p po Hp Hk (isType_falsy s p _ Hsig eq_refl) Hnone).
  unfold getObjectType. rewrite (bind_ok _ _ _ _ _ (isPrototype_own s p po Hp Hk)).
  rewrite Hctor. rewrite bool_decide_eq_true_2 by eauto.
  unfold getPrototypeType, get_value, bind at 1.
  rewrite (get_object_own _ _ _ _ _ Hp (array_key_constructor po) Hctor), Hq.
  unfold getClassType. rewrite (bind_ok _ _ _ _ _ (restore_cached s f T Hc)).
  rewrite HT. reflexivity.
Qed.

(** [class Foo {}] in the loaded module, once [typeOf(Foo)] has run. *)
Lemma typeOf_of_class_prototype_witness :
  let s := state_after (let* f := declare_class "Foo" in typeOf f) initial in
  typeOf (VObject 34) s = (Ok (VObject 35), s).
Proof.
  intros s.
  refine (typeOf_of_class_prototype s 33 34
            (Object (Some Object_prototype) Ordinary true [method "constructor" 33])
            (VObject 35) _ _ _ _ _ _).
  - unfold is_class. split_and!.
    + vm_compute. reflexivity.
    + unfold Object_prototype. lia.
    + eexists _, _. split_and!; vm_compute; reflexivity.
    + eexists _, _. split_and!; vm_compute; reflexivity.
    + vm_compute. reflexivity.
  - eexists. split; vm_compute; reflexivity.
  - reflexivity.
  - vm_compute. reflexivity.
  - discriminate.
  - reflexivity.
Defined.

(** X14. An object without a prototype, that is no type, owns no
    [constructor] and has no cached type: [typeOf] throws a
    [TypeError] and changes nothing, because [getInstanceType] hands the
    [null] prototype to [getPrototypeType]. *)
Theorem typeOf_of_null_prototype_object (s : state) (l : loc) (o : object) :
  heap s !! l = Some o ->
  o_kind o <> Callable ->
  o_proto o = None ->
  own_property o (KSymbol TypeSignature) = None ->
  own_property o (KSymbol CachedType) = None ->
  own_property o (KString "constructor") = None ->
  typeOf (VObject l) s = (Throw TypeError, s).
Proof.
  intros Hl Hk Hp Hsig Hnone Hctor.
  assert (Hget : get_object (heap s) l (KSymbol TypeSignature) = Ok VUndefined).
  { unfold get_object. cbn [get_from]. rewrite Hl, (array_key_symbol o), Hsig, Hp.
    reflexivity. }
  rewrite (typeOf_object_step s l o Hl Hk (isType_falsy s l _ Hget eq_refl) Hnone).
  unfold getObjectType. rewrite (bind_ok _ _ _ _ _ (isPrototype_own s l o Hl Hk)).
  rewrite Hctor. rewrite bool_decide_eq_false_2 by (intros [x Hx]; discriminate).
  unfold getInstanceType. rewrite (bind_ok _ _ _ _ _ (restore_none s l o Hl Hnone)).
  cbn [truthy negb].
  assert (Hproto : Reflect_getPrototypeOf (VObject l) s = (Ok VNull, s)).
  { unfold Reflect_getPrototypeOf. rewrite Hl, Hp. reflexivity. }
  rewrite (bind_ok _ _ _ _ _ Hproto). reflexivity.
Qed.

Lemma typeOf_of_null_prototype_object_witness :
  let s := state_after null_prototype_object initial in
  typeOf (VObject 33) s = (Throw TypeError, s).
Proof.
  intros s.
  refine (typeOf_of_null_prototype_object s 33 (Object None Ordinary true []) _ _ _ _ _ _);
    first [discriminate | vm_compute; reflexivity].
Defined.

(** ** Functions without a name, and [register] *)

(** X15. An extensible function that has no cached type and whose
    [name] is falsy (an anonymous function): [typeOf] makes a new type
    for it, caches that type on the function and does not touch
    [Names]. *)
Theorem typeOf_of_anonymous_function (s : state) (f : loc) (o : object) (n : value) :
  heap s !! f = Some o ->
  o_kind o = Callable ->
  o_extensible o = true ->
  own_property o (KSymbol CachedType) = None ->
  get_object (heap s) f (KString "name") = Ok n -> truthy n = false ->
  let T := VObject (length (heap s)) in
  exists s1,
    typeOf (VObject f) s = (Ok T, s1)
    /\ cached (heap s1) f T
    /\ isType T s1 = (Ok true, s1)
    /\ Names s1 = Names s.
Proof.
  intros Hl Hkind Hext Hnone Hname Hn T. subst T.
  rewrite (typeOf_unresolved_function s f o Hl Hkind Hnone).
  pose proof (typeof_callable _ _ _ Hl Hkind) as Htypeof.
  assert (Hextract : extractName (VObject f) s = (Ok n, s)).
  { unfold extractName, bind, read, ret. rewrite Htypeof.
    cbn -[get_object typeof]. rewrite Htypeof. cbn -[get_object].
    rewrite Hname. reflexivity. }
  unfold getClassType. rewrite (bind_ok _ _ _ _ _ (restore_none s f o Hl Hnone)).
  cbn [truthy negb]. rewrite (bind_ok _ _ _ _ _ Hextract). rewrite Hn.
  rewrite (bind_ok _ _ _ _ _ (create_spec s)).
  set (s0 := State _ _ _ _).
  assert (Hl0 : heap s0 !! f = Some o) by (apply lookup_before_end, Hl).
  rewrite (bind_ok _ _ _ _ _ (store_fresh s0 f o _ Hl0 Hext Hnone)).
  set (o1 := set_props _ _). set (s1 := State _ _ _ _).
  assert (Hne : f <> length (heap s)).
  { apply lookup_lt_Some in Hl. lia. }
  assert (HT : heap s1 !! length (heap s) = Some (type_object (next_symbol s))).
  { unfold s1. cbn [heap]. rewrite list_lookup_insert_ne by exact Hne. apply lookup_at_end. }
  exists s1. split_and!.
  - reflexivity.
  - exists o1. split; [apply (heap_lookup_insert _ _ o), Hl0 | apply assoc_get_set_eq].
  - exact (isType_own s1 _ _ (hidden (VSymbol (next_symbol s))) HT
             ltac:(discriminate) eq_refl).
  - reflexivity.
Qed.

(** A function declared with the empty name. *)
Lemma typeOf_of_anonymous_function_witness :
  let s := state_after (declare_class "") initial in
  exists s1,
    typeOf (VObject 33) s = (Ok (VObject 35), s1)
    /\ cached (heap s1) 33 (VObject 35)
    /\ isType (VObject 35) s1 = (Ok true, s1)
    /\ Names s1 = Names s.
Proof.
  intros s.
  refine (typeOf_of_anonymous_function s 33 (builtin_function "" [prototype_of 34])
            (VString "") _ _ _ _ _ _); vm_compute; reflexivity.
Defined.

(** X16. [register(name)] applied to a target that is no function does
    nothing: the name is not even parsed, and the state is unchanged. *)
Theorem register_ignores_non_class (s : state) (name : string) (target : value) :
  typeof (heap s) target <> "function" ->
  register name target s = (Ok tt, s).
Proof.
  intros Hty. unfold register, isClass, bind, read, ret.
  destruct (String.eqb (typeof (heap s) target) "function") eqn:Heq; [|reflexivity].
  apply String.eqb_eq in Heq. contradiction.
Qed.

(** On a plain object, under a name that [Names] does not hold. *)
Lemma register_ignores_non_class_witness :
  let s := state_after (new_object []) initial in
  register "Foo" (VObject 33) s = (Ok tt, s).
Proof.
  intros s. refine (register_ignores_non_class s "Foo" (VObject 33) _).
  vm_compute. discriminate.
Defined.

(** X17. A function that already carries a cached type keeps it when
    [register] is applied to it, under whatever name and whether
    [register] returns or throws. *)
Theorem register_keeps_earlier_type (s : state) (name : string) (f : loc) (T : value) :
  cached (heap s) f T ->
  let s2 := state_after (register name (VObject f)) s in
  restore (VObject f) s2 = (Ok T, s2).
Proof.
  intros Hc s2. apply restore_cached. apply (cached_extends s); [|exact Hc].
  apply returns_register.
Qed.

(** [class Foo {}], resolved by [typeOf] and then registered as
    ["Bar"]: it keeps the type named ["Foo"]. *)
Lemma register_keeps_earlier_type_witness :
  let s := state_after (let* f := declare_class "Foo" in typeOf f) initial in
  let s2 := state_after (register "Bar" (VObject 33)) s in
  restore (VObject 33) s2 = (Ok (VObject 35), s2)
  /\ result_of (nameOf (VObject 35)) s2 = Ok (VString "Foo").
Proof.
  intros s s2. split.
  - refine (register_keeps_earlier_type s "Bar" 33 (VObject 35) _).
    eexists. split; vm_compute; reflexivity.
  - vm_compute. reflexivity.
Defined.

(** ** The pattern of [parse], exactly *)

Lemma last_bracket_unique (a a' b b' : string) :
  string_forall not_open_bracket b = true ->
  string_forall not_open_bracket b' = true ->
  a +:+ String "<" b = a' +:+ String "<" b' -> a = a' /\ b = b'.
Proof.
  intros Hb Hb'. revert a'. induction a as [|c a IH]; intros [|c' a'].
  - intros [= ->]. auto.
  - intros [= <- ->]. rewrite string_forall_app in Hb. cbn in Hb.
    rewrite andb_false_r in Hb. discriminate.
  - intros [= -> <-]. rewrite string_forall_app in Hb'. cbn in Hb'.
    rewrite andb_false_r in Hb'. discriminate.
  - rewrite !string_app_cons. intros [= -> Heq]. destruct (IH _ Heq) as [-> ->]. auto.
Qed.

Lemma string_app_inj_last (a b : string) (c : ascii) :
  a +:+ String c "" = b +:+ String c "" -> a = b.
Proof.
  revert b. induction a as [|x a IH]; intros [|y b]; cbn.
  - reflexivity.
  - intros [= _ Heq]. destruct b; discriminate.
  - intros [= _ Heq]. destruct a; discriminate.
  - intros [= -> Heq]. f_equal. apply IH, Heq.
Qed.

(** X18. The pattern of [parse] splits a name at its last opening
    bracket: a text without line terminators that ends in a closing
    bracket is matched with everything before its last opening bracket
    as the path, and what lies between that bracket and the final
    closing bracket as the parameter list. *)
Theorem match_generic_splits_at_last_bracket (path typeParams : string) :
  string_forall not_terminator path = true ->
  string_forall not_terminator typeParams = true ->
  string_forall not_open_bracket typeParams = true ->
  match_generic (path +:+ "<" +:+ typeParams +:+ ">") = Some (path, typeParams).
Proof.
  intros Hp Ht Ho.
  destruct (match_generic (path +:+ "<" +:+ typeParams +:+ ">")) as [[p' t']|] eqn:Hm.
  - pose proof (match_generic_shape _ _ _ Hm) as Hshape.
    pose proof (match_generic_no_open_bracket _ _ _ Hm) as Ho'.
    apply last_bracket_unique in Hshape.
    + destruct Hshape as [-> Heq]. apply string_app_inj_last in Heq. subst t'. reflexivity.
    + rewrite string_forall_app, Ho. reflexivity.
    + rewrite string_forall_app, Ho'. reflexivity.
  - exfalso. rewrite match_generic_after_path in Hm.
    exact (after_path_matches "" path typeParams Hp Ht Hm).
Qed.

(** The path keeps the inner opening bracket of a nested name. *)
Lemma match_generic_splits_at_last_bracket_witness :
  match_generic ("Map<Array" +:+ "<" +:+ "string>, number" +:+ ">")
  = Some ("Map<Array", "string>, number").
Proof.
  apply (match_generic_splits_at_last_bracket "Map<Array" "string>, number");
    reflexivity.
Defined.

(** X19. Whenever the pattern of [parse] matches, the name is the path,
    an opening bracket, the parameter list and a closing bracket;
    neither part holds a line terminator and the parameter list holds
    no opening bracket. *)
Theorem match_generic_sound (fqn path typeParams : string) :
  match_generic fqn = Some (path, typeParams) ->
  fqn = path +:+ "<" +:+ typeParams +:+ ">"
  /\ string_forall not_terminator path = true
  /\ string_forall not_terminator typeParams = true
  /\ string_forall not_open_bracket typeParams = true.
Proof.
  intros Hm. split_and!.
  - apply match_generic_shape, Hm.
  - unfold match_generic in Hm.
    destruct (first_match_some _ _ _ Hm) as ([g1 r1] & Hin1 & Hf1). cbn [fst snd] in Hf1.
    destruct r1 as [|c r2]; [discriminate|].
    destruct (Ascii.eqb c "<"); [|discriminate].
    destruct (first_match_some _ _ _ Hf1) as ([g2 r3] & Hin2 & Hf2). cbn [fst snd] in Hf2.
    destruct (String.eqb r3 ">"); [|discriminate]. injection Hf2 as <- <-.
    apply (dot_star_taken _ _ _ Hin1).
  - unfold match_generic in Hm.
    destruct (first_match_some _ _ _ Hm) as ([g1 r1] & Hin1 & Hf1). cbn [fst snd] in Hf1.
    destruct r1 as [|c r2]; [discriminate|].
    destruct (Ascii.eqb c "<"); [|discriminate].
    destruct (first_match_some _ _ _ Hf1) as ([g2 r3] & Hin2 & Hf2). cbn [fst snd] in Hf2.
    destruct (String.eqb r3 ">"); [|discriminate]. injection Hf2 as <- <-.
    apply (dot_star_taken _ _ _ Hin2).
  - apply (match_generic_no_open_bracket _ _ _ Hm).
Qed.

Lemma match_generic_sound_witness :
  "Foo<a, b>" = "Foo" +:+ "<" +:+ "a, b" +:+ ">"
  /\ string_forall not_terminator "Foo" = true
  /\ string_forall not_terminator "a, b" = true
  /\ string_forall not_open_bracket "a, b" = true.
Proof.
  apply (match_generic_sound "Foo<a, b>" "Foo" "a, b"). reflexivity.
Defined.

(** ** The loop of [parse] over the parameter list *)

Lemma string_get_app (pre s : string) (k : nat) :
  String.get (String.length pre + k) (pre +:+ s) = String.get k s.
Proof. induction pre as [|c pre IH]; [reflexivity | exact IH]. Qed.

Lemma string_get_end (pre s : string) :
  String.get (String.length pre) (pre +:+ s) = String.get 0 s.
Proof. rewrite <- (string_get_app pre s 0), Nat.add_0_r. reflexivity. Qed.

Lemma substring_app (pre s : string) (k n : nat) :
  substring (String.length pre + k) n (pre +:+ s) = substring k n s.
Proof. induction pre as [|c pre IH]; [reflexivity | exact IH]. Qed.

Lemma substring_prefix (a s : string) : substring 0 (String.length a) (a +:+ s) = a.
Proof.
  induction a as [|c a IH]; [destruct s; reflexivity|].
  cbn [String.length]. rewrite string_app_cons. cbn [substring]. rewrite IH. reflexivity.
Qed.

Lemma substring_all (s : string) : substring 0 (String.length s) s = s.
Proof.
  induction s as [|c s IH]; [reflexivity|]. cbn [String.length substring].
  rewrite IH. reflexivity.
Qed.

Lemma string_app_snoc (pre : string) (c : ascii) (s : string) :
  pre +:+ String c s = (pre +:+ String c "") +:+ s.
Proof. rewrite string_app_assoc. reflexivity. Qed.

Lemma string_length_snoc (pre : string) (c : ascii) :
  String.length (pre +:+ String c "") = S (String.length pre).
Proof. rewrite string_length_app. cbn. lia. Qed.

(** Over plain characters the loop only moves its index. *)
Lemma scan_params_plain (a : string) :
  forall (pre rest : string) (fuel : nat) (intent : Z) (lastIndex : nat) (params : list string),
  string_forall plain_char a = true ->
  scan_params (String.length a + fuel) (pre +:+ a +:+ rest) (String.length pre)
    intent lastIndex params =
  scan_params fuel (pre +:+ a +:+ rest) (String.length pre + String.length a)
    intent lastIndex params.
Proof.
  induction a as [|c a IH]; intros pre rest fuel intent lastIndex params Ha.
  - cbn [String.length]. rewrite Nat.add_0_r. reflexivity.
  - cbn [string_forall] in Ha. apply andb_true_iff in Ha. destruct Ha as [Hc Ha].
    unfold plain_char in Hc. rewrite !andb_true_iff, !negb_true_iff in Hc.
    destruct Hc as [[Hlt Hgt] Hcomma].
    cbn [String.length Nat.add scan_params]. rewrite string_app_cons, string_get_end.
    cbn [String.get]. rewrite Hlt, Hgt, Hcomma. cbn [andb].
    rewrite (string_app_snoc pre c (a +:+ rest)), <- (string_length_snoc pre c).
    rewrite (IH (pre +:+ String c "") rest fuel intent lastIndex params Ha).
    rewrite string_length_snoc. f_equal. lia.
Qed.

(** Below depth 0, and with no opening bracket to come, the loop adds
    no parameter any more. *)
Lemma scan_params_closed (b : string) :
  forall (pre : string) (fuel : nat) (intent : Z) (lastIndex : nat) (params : list string),
  (intent < 0)%Z ->
  string_forall not_open_bracket b = true ->
  scan_params fuel (pre +:+ b) (String.length pre) intent lastIndex params
  = (params, lastIndex).
Proof.
  induction b as [|c b IH]; intros pre fuel intent lastIndex params Hneg Hb;
    (destruct fuel as [|fuel]; [reflexivity|]); cbn [scan_params]; rewrite string_get_end.
  - reflexivity.
  - cbn [String.get]. cbn [string_forall] in Hb. apply andb_true_iff in Hb.
    destruct Hb as [Hc Hb]. unfold not_open_bracket in Hc. apply negb_true_iff in Hc.
    rewrite Hc. rewrite (string_app_snoc pre c b), <- (string_length_snoc pre c).
    destruct (Ascii.eqb c ">").
    + apply IH; [lia | exact Hb].
    + replace (intent =? 0)%Z with false by (symmetry; apply Z.eqb_neq; lia).
      rewrite andb_false_r. apply IH; [lia | exact Hb].
Qed.

(** The loop on the text after a prefix is the loop on that text alone,
    with the indices moved. *)
Lemma scan_params_shift (pre b : string) (fuel : nat) :
  forall (i : nat) (intent : Z) (lastIndex : nat) (params ps0 : list string),
  scan_params fuel (pre +:+ b) (String.length pre + i) intent
    (String.length pre + lastIndex) (params ++ ps0) =
  (params ++ fst (scan_params fuel b i intent lastIndex ps0),
   String.length pre + snd (scan_params fuel b i intent lastIndex ps0)).
Proof.
  induction fuel as [|fuel IH]; intros i intent lastIndex params ps0; [reflexivity|].
  cbn [scan_params]. rewrite string_get_app.
  destruct (String.get i b) as [char|]; [|reflexivity].
  rewrite <- !Nat.add_succ_r.
  destruct (Ascii.eqb char "<"); [apply IH|].
  destruct (Ascii.eqb char ">"); [apply IH|].
  destruct (Ascii.eqb char "," && (intent =? 0)%Z); [|apply IH].
  replace (String.length pre + i - (String.length pre + lastIndex)) with (i - lastIndex) by lia.
  rewrite substring_app, <- app_assoc. apply IH.
Qed.

(** X20. A comma of the parameter list that comes before any angle
    bracket ends a parameter: the text before it, trimmed, is the first
    parameter, and the rest is split on its own. *)
Theorem split_params_at_comma (a b : string) :
  string_forall plain_char a = true ->
  split_params (a +:+ "," +:+ b) = trim a :: split_params b.
Proof.
  intros Ha. unfold split_params.
  assert (Hlen : String.length (a +:+ "," +:+ b) = String.length a + S (String.length b))
    by (rewrite string_length_app; reflexivity).
  rewrite Hlen.
  assert (Hskip :
    scan_params (String.length a + S (String.length b)) (a +:+ "," +:+ b) 0 0%Z 0 [] =
    scan_params (S (String.length b)) (a +:+ "," +:+ b) (String.length a) 0%Z 0 [])
    by exact (scan_params_plain a "" ("," +:+ b) (S (String.length b)) 0%Z 0 [] Ha).
  rewrite Hskip. clear Hskip.
  cbn [scan_params].
  rewrite <- (Nat.add_0_r (String.length a)) at 1. rewrite string_get_app.
  change (String.get 0 ("," +:+ b)) with (Some ","%char).
  cbn [Ascii.eqb Bool.eqb andb Z.eqb app]. cbv beta iota.
  rewrite Nat.sub_0_r, substring_prefix.
  change (a +:+ "," +:+ b) with (a +:+ String "," b).
  rewrite (string_app_snoc a "," b).
  pose proof (scan_params_shift (a +:+ ",") b (String.length b) 0 0%Z 0 [trim a] []) as Hshift.
  rewrite string_length_snoc, !Nat.add_0_r, app_nil_r in Hshift.
  rewrite Hshift. clear Hshift.
  destruct (scan_params (String.length b) b 0 0 0 []) as [ps li]. cbn [fst snd].
  replace (String.length a + S (String.length b) - (S (String.length a) + li))
    with (String.length b - li) by lia.
  rewrite <- (string_length_snoc a ","), substring_app. reflexivity.
Qed.

Lemma split_params_at_comma_witness :
  split_params (" string" +:+ "," +:+ " Array<number> ")
  = trim " string" :: split_params " Array<number> ".
Proof. apply (split_params_at_comma " string" " Array<number> "). reflexivity. Defined.

(** X21. After a closing bracket that no opening bracket precedes, the
    loop splits no more: when no opening bracket follows either, as in
    every parameter list that the pattern of [parse] yields, the whole
    text, commas included, is one parameter. *)
Theorem split_params_after_closing_bracket (a b : string) :
  string_forall plain_char a = true ->
  string_forall not_open_bracket b = true ->
  split_params (a +:+ ">" +:+ b) = [trim (a +:+ ">" +:+ b)].
Proof.
  intros Ha Hb. unfold split_params.
  assert (Hlen : String.length (a +:+ ">" +:+ b) = String.length a + S (String.length b))
    by (rewrite string_length_app; reflexivity).
  rewrite Hlen at 1.
  assert (Hskip :
    scan_params (String.length a + S (String.length b)) (a +:+ ">" +:+ b) 0 0%Z 0 [] =
    scan_params (S (String.length b)) (a +:+ ">" +:+ b) (String.length a) 0%Z 0 [])
    by exact (scan_params_plain a "" (">" +:+ b) (S (String.length b)) 0%Z 0 [] Ha).
  rewrite Hskip. clear Hskip.
  cbn [scan_params].
  rewrite <- (Nat.add_0_r (String.length a)) at 1. rewrite string_get_app.
  change (String.get 0 (">" +:+ b)) with (Some ">"%char).
  cbn [Ascii.eqb Bool.eqb]. cbv beta iota.
  change (a +:+ ">" +:+ b) with (a +:+ String ">" b).
  rewrite (string_app_snoc a ">" b), <- (string_length_snoc a ">").
  rewrite (scan_params_closed b (a +:+ ">") (String.length b) (0 - 1)%Z 0 [] ltac:(lia) Hb).
  rewrite Nat.sub_0_r, substring_all. reflexivity.
Qed.

(** The parameter list of ["Map<Array<string>, number>"]. *)
Lemma split_params_after_closing_bracket_witness :
  split_params ("string" +:+ ">" +:+ ", number") = [trim ("string" +:+ ">" +:+ ", number")].
Proof.
  apply (split_params_after_closing_bracket "string" ", number"); reflexivity.
Defined.

(** ** The module part of a name *)

Lemma string_app_nil_r (s : string) : s +:+ "" = s.
Proof. induction s as [|c s IH]; [reflexivity|]. rewrite string_app_cons, IH. reflexivity. Qed.

Lemma split_colons_plain (a : string) :
  forall (s cur : string),
  string_forall not_colon a = true ->
  split_colons (a +:+ s) cur = split_colons s (cur +:+ a).
Proof.
  induction a as [|c a IH]; intros s cur Ha.
  - rewrite string_app_nil_r. reflexivity.
  - cbn [string_forall] in Ha. apply andb_true_iff in Ha. destruct Ha as [Hc Ha].
    unfold not_colon in Hc. apply negb_true_iff in Hc.
    rewrite string_app_cons, (string_app_snoc cur c a). cbn [split_colons].
    destruct (a +:+ s) as [|c' rest] eqn:Has.
    + destruct a; [|discriminate]. destruct s; [|discriminate].
      rewrite string_app_nil_r. reflexivity.
    + rewrite Hc. cbn [andb]. rewrite <- Has. apply IH, Ha.
Qed.

Lemma split_colons_separator (s cur : string) :
  split_colons ("::" +:+ s) cur = cur :: split_colons s "".
Proof. reflexivity. Qed.

Lemma split_colons_two (m p rest : string) :
  string_forall not_colon m = true ->
  string_forall not_colon p = true ->
  split_colons (m +:+ "::" +:+ p +:+ rest) "" = m :: split_colons rest p.
Proof.
  intros Hm Hp.
  rewrite (split_colons_plain m _ "" Hm), split_colons_separator.
  rewrite (split_colons_plain p _ "" Hp). reflexivity.
Qed.

(** X22. [parse] keeps two pieces of a name at most: with a module and
    a path that hold no colon, whatever follows a second separator is
    dropped, and the name is taken apart as if it ended there. *)
Theorem split_name_drops_third_piece (m p rest : string) :
  string_forall not_colon m = true ->
  string_forall not_colon p = true ->
  split_module (m +:+ "::" +:+ p +:+ "::" +:+ rest) = [m; p]
  /\ split_name (m +:+ "::" +:+ p +:+ "::" +:+ rest) = split_name (m +:+ "::" +:+ p).
Proof.
  intros Hm Hp.
  assert (Hlong : split_module (m +:+ "::" +:+ p +:+ "::" +:+ rest) = [m; p]).
  { unfold split_module. rewrite (split_colons_two m p _ Hm Hp), split_colons_separator.
    reflexivity. }
  assert (Hshort : split_module (m +:+ "::" +:+ p) = [m; p]).
  { unfold split_module. rewrite <- (string_app_nil_r p) at 1.
    rewrite (split_colons_two m p "" Hm Hp). reflexivity. }
  split; [exact Hlong|]. unfold split_name. rewrite Hlong, Hshort. reflexivity.
Qed.

Lemma split_name_drops_third_piece_witness :
  split_module ("app" +:+ "::" +:+ "Foo" +:+ "::" +:+ "Bar<x>") = ["app"; "Foo"]
  /\ split_name ("app" +:+ "::" +:+ "Foo" +:+ "::" +:+ "Bar<x>")
     = split_name ("app" +:+ "::" +:+ "Foo").
Proof. apply (split_name_drops_third_piece "app" "Foo" "Bar<x>"); reflexivity. Defined.

(** ** Names without a parameter list *)

Lemma assoc_set_same {K V : Type} `{EqDecision K} (k : K) (v : V) (m : list (K * V)) :
  assoc_get k m = Some v -> assoc_set k v m = m.
Proof.
  induction m as [|[k' v'] m IH]; simpl; [discriminate|].
  destruct (decide (k = k')) as [->|Hne].
  - intros [= ->]. reflexivity.
  - intros Hm. rewrite (IH Hm). reflexivity.
Qed.

Lemma bind_inv {A B} (c : M A) (k : A -> M B) (s s1 : state) (b : B) :
  bind c k s = (Ok b, s1) -> exists a s0, c s = (Ok a, s0) /\ k a s0 = (Ok b, s1).
Proof.
  unfold bind. destruct (c s) as [[a|e] s0]; [|discriminate]. intros Hk. eauto.
Qed.

(** An assignment that returns leaves a writable own property with the
    value. *)
Lemma set_value_written (s s' : state) (v : value) (k : propkey) (x : value) :
  set_value v k x s = (Ok tt, s') ->
  exists l o o' e c,
    v = VObject l /\ heap s !! l = Some o
    /\ s' = State (<[l := o']> (heap s)) (next_symbol s) (Names s) (Primitives s)
    /\ array_key o' k = false
    /\ own_property o' k = Some (Property x true e c)
    /\ (forall k', k' <> k -> object_agrees_on k' o o').
Proof.
  unfold set_value, set_object. intros Hset.
  destruct v as [| | | | | | |l]; try discriminate.
  destruct (heap s !! l) as [o|] eqn:Hl; [|discriminate].
  assert (Hown : forall q,
            own_property (set_props o (assoc_set k q (o_props o))) k = Some q)
    by (intros q; apply assoc_get_set_eq).
  assert (Hrest : forall q k', k' <> k ->
            object_agrees_on k' o (set_props o (assoc_set k q (o_props o)))).
  { intros q k' Hk. repeat split. apply assoc_get_set_ne. congruence. }
  destruct (array_key o k) eqn:Hkey; [discriminate|].
  destruct (own_property o k) as [cur|].
  - destruct (p_writable cur); [|discriminate]. injection Hset as <-.
    eexists l, o, _, _, _. split_and!; [reflexivity | exact Hl | reflexivity
      | exact Hkey | apply Hown | apply Hrest].
  - destruct (inherited_writable _ _ _ _) as [w|]; [|discriminate].
    destruct (w && o_extensible o); [|discriminate]. injection Hset as <-.
    eexists l, o, _, _, _. split_and!; [reflexivity | exact Hl | reflexivity
      | exact Hkey | apply Hown | apply Hrest].
Qed.

(** Assigning the value that a writable own property already has changes
    nothing. *)
Lemma set_value_same (s : state) (l : loc) (o : object) (k : propkey) (x : value)
  (e c : bool) :
  heap s !! l = Some o -> array_key o k = false ->
  own_property o k = Some (Property x true e c) ->
  set_value (VObject l) k x s = (Ok tt, s).
Proof.
  intros Hl Ha Ho. unfold set_value, set_object. rewrite Hl, Ha, Ho.
  cbn [p_writable p_enumerable p_configurable].
  unfold own_property in Ho. rewrite (assoc_set_same _ _ _ Ho).
  replace (set_props o (o_props o)) with o by (destruct o; reflexivity).
  rewrite (heap_insert_same _ _ _ Hl). destruct s; reflexivity.
Qed.

Lemma set_value_Names (v : value) (k : propkey) (x : value) (s : state) :
  Names (snd (set_value v k x s)) = Names s.
Proof.
  unfold set_value. destruct v; try reflexivity.
  destruct (set_object _ _ _ _); reflexivity.
Qed.

Lemma assign_entries_Names (target : value) (source : list (string * value)) (s : state) :
  Names (snd (assign_entries target source s)) = Names s.
Proof.
  revert s. induction source as [|[k x] rest IH]; intros s; [reflexivity|].
  cbn [assign_entries]. unfold bind.
  pose proof (set_value_Names target (KString k) x s) as Hset.
  destruct (set_value target (KString k) x s) as [[u|e] s0]; cbn [snd] in *.
  - rewrite IH. exact Hset.
  - exact Hset.
Qed.

(** [Object.assign] never touches [Names]. *)
Lemma Object_assign_Names (target : value) (source : list (string * value)) (s : state) :
  Names (snd (Object_assign target source s)) = Names s.
Proof.
  destruct target; try reflexivity. apply assign_entries_Names.
Qed.

(** [Object.assign(result, { module, path })] that returns: the second
    time it changes nothing, and no other property of any object is
    changed. *)
Lemma Object_assign_module_path (s s1 : state) (l : loc) (mv pv : value) :
  Object_assign (VObject l) [("module", mv); ("path", pv)] s = (Ok tt, s1) ->
  Object_assign (VObject l) [("module", mv); ("path", pv)] s1 = (Ok tt, s1)
  /\ Names s1 = Names s /\ Primitives s1 = Primitives s
  /\ (forall k, k <> KString "module" -> k <> KString "path" ->
        heap_agrees_on k (heap s) (heap s1)).
Proof.
  cbn [Object_assign assign_entries]. intros Hrun.
  apply bind_inv in Hrun. destruct Hrun as ([] & sa & Hset1 & Hrun).
  apply bind_inv in Hrun. destruct Hrun as ([] & sb & Hset2 & Hrun).
  injection Hrun as <-.
  destruct (set_value_written _ _ _ _ _ Hset1)
    as (l1 & o & o1 & e1 & c1 & Hv1 & Hl & -> & Hkey1 & Hown1 & Hrest1).
  injection Hv1 as <-.
  destruct (set_value_written _ _ _ _ _ Hset2)
    as (l2 & o1' & o2 & e2 & c2 & Hv2 & Hl1 & -> & Hkey2 & Hown2 & Hrest2).
  injection Hv2 as <-. cbn [heap next_symbol Names Primitives] in *.
  rewrite (heap_lookup_insert _ _ _ _ Hl) in Hl1. injection Hl1 as <-.
  destruct (Hrest2 (KString "module") ltac:(discriminate)) as (_ & Hkind & _ & Hmodule).
  set (s2 := State _ _ _ _).
  assert (Hl2 : heap s2 !! l = Some o2)
    by (apply (heap_lookup_insert _ _ o1), (heap_lookup_insert _ _ o), Hl).
  split_and!.
  - rewrite (bind_ok _ _ _ _ _ (set_value_same s2 l o2 (KString "module") mv e1 c1 Hl2
               ltac:(rewrite (array_key_kind _ _ _ Hkind); exact Hkey1)
               ltac:(rewrite Hmodule; exact Hown1))).
    rewrite (bind_ok _ _ _ _ _ (set_value_same s2 l o2 (KString "path") pv e2 c2 Hl2
               Hkey2 Hown2)).
    reflexivity.
  - reflexivity.
  - reflexivity.
  - intros k Hk1 Hk2. unfold s2. cbn [heap].
    apply (heap_agrees_trans k _ (<[l := o1]> (heap s))).
    + apply (heap_agrees_insert k _ _ o _ Hl), Hrest1, Hk1.
    + apply (heap_agrees_insert k _ _ o1 _ (heap_lookup_insert _ _ _ _ Hl)), Hrest2, Hk2.
Qed.

(** What [named] leaves behind. *)
Lemma named_frame (s : state) (name : value) :
  exists T s1,
    named name s = (Ok (VObject T), s1)
    /\ assoc_get name (Names s1) = Some T
    /\ (forall k, k <> name -> assoc_get k (Names s1) = assoc_get k (Names s))
    /\ Primitives s1 = Primitives s
    /\ (forall k, heap_agrees_on k (heap s) (heap s1)).
Proof.
  destruct (assoc_get name (Names s)) as [T0|] eqn:Hget.
  - destruct (named_spec s name) as (T & s1 & Hrun & Hnames & Hold & _).
    destruct (Hold T0 Hget) as [-> ->].
    exists T0, s. split_and!; auto using heap_agrees_refl.
  - eexists _, _. split; [apply (named_fresh_spec s name Hget)|].
    cbn [heap Names Primitives]. split_and!.
    + apply assoc_get_set_eq.
    + intros k Hk. apply assoc_get_set_ne. congruence.
    + reflexivity.
    + intros k. apply heap_agrees_app.
Qed.

Lemma named_known (s : state) (name : value) (T : loc) :
  assoc_get name (Names s) = Some T -> named name s = (Ok (VObject T), s).
Proof.
  intros Hget. destruct (named_spec s name) as (T1 & s1 & Hrun & _ & Hold & _).
  destruct (Hold T Hget) as [-> ->]. exact Hrun.
Qed.

Lemma PrimitiveNames_get_state (name : string) (s : state) :
  snd (PrimitiveNames_get name s) = s.
Proof. unfold PrimitiveNames_get. destruct (assoc_get _ _); reflexivity. Qed.

Lemma inherited_member_agrees (name : string) (h h' : list object) (v : value) :
  heap_agrees_on (KString name) h h' ->
  inherited_member h name = Ok v -> inherited_member h' name = Ok v.
Proof.
  intros Hag. unfold inherited_member.
  destruct (get_object h Object_prototype (KString name)) as [w|e] eqn:Hget; [|discriminate].
  rewrite (get_object_agrees _ _ _ _ _ Hag Hget).
  destruct w; try (intros Hw; exact Hw).
  destruct (String.eqb name "__proto__"); [|intros Hw; exact Hw].
  destruct (h !! Object_prototype) as [o|] eqn:Hl; [|discriminate].
  destruct (Hag _ _ Hl) as (o' & Hl' & _ & _ & _ & Hown). rewrite Hl', Hown.
  intros Hw; exact Hw.
Qed.

Lemma PrimitiveNames_get_agrees (name : string) (s s' : state) (v : value) :
  heap_agrees_on (KString name) (heap s) (heap s') ->
  PrimitiveNames_get name s = (Ok v, s) -> PrimitiveNames_get name s' = (Ok v, s').
Proof.
  unfold PrimitiveNames_get. intros Hag.
  destruct (assoc_get name PrimitiveNames_at_load); [intros [= ->]; reflexivity|].
  intros [= Hget]. rewrite (inherited_member_agrees _ _ _ _ Hag Hget). reflexivity.
Qed.

(** The keys of the table are the same whatever the exports. *)
Lemma PrimitiveNames_keys (name : string) (p q : PrimitivesModule) :
  assoc_get name (PrimitiveNames p) = None -> assoc_get name (PrimitiveNames q) = None.
Proof.
  unfold PrimitiveNames. cbn [assoc_get].
  repeat match goal with
         | |- context [decide (name = ?n)] =>
             destruct (decide (name = n)) as [_|_]; [discriminate|]
         end.
  reflexivity.
Qed.

Lemma Names_has_spec (name : value) (s : state) :
  Names_has name s = (Ok (bool_decide (is_Some (assoc_get name (Names s)))), s).
Proof.
  unfold Names_has, read. destruct (assoc_get name (Names s)); reflexivity.
Qed.

Lemma Names_has_some (name : value) (s : state) (t : loc) :
  assoc_get name (Names s) = Some t ->
  Names_has name s = (Ok true, s) /\ Names_get name s = (Ok (VObject t), s).
Proof. intros Hn. unfold Names_has, Names_get, read. rewrite Hn. auto. Qed.

Lemma Names_has_none (name : value) (s : state) :
  assoc_get name (Names s) = None -> Names_has name s = (Ok false, s).
Proof. intros Hn. unfold Names_has, read. rewrite Hn. reflexivity. Qed.

Lemma split_name_module : split_name "module" = (None, "module", None).
Proof. vm_compute. reflexivity. Qed.

Lemma split_name_path : split_name "path" = (None, "path", None).
Proof. vm_compute. reflexivity. Qed.

(** [parse] of a name without a parameter list, asked again right
    away. *)
Lemma parse_with_plain_again (P : string -> M value) (name : string) (s s1 : state)
  (T : value) :
  plain_name name = true ->
  parse_with P name s = (Ok T, s1) -> parse_with P name s1 = (Ok T, s1).
Proof.
  unfold plain_name. intros Hplain Hrun. pose proof Hrun as Hrun0.
  unfold parse_with in Hrun |- *.
  destruct (split_name name) as [[m p] tp] eqn:Hsplit. cbn [snd] in Hplain.
  assert (Htail : forall result : value,
            match tp with
            | Some typeParams =>
                if String.eqb typeParams "" then ret result
                else
                  let params := split_params typeParams in
                  let* type := complex_with P result (map VString params) in
                  let* type_args := get_value type (KSymbol TypeArguments) in
                  let* items := array_items type_args in
                  let* tags := mapM (fun arg => get_value arg (KSymbol Symbol_toStringTag)) items in
                  let* paramNames := join ", " tags in
                  let* ref := get_value type (KSymbol TypeReference) in
                  let* ref_tag := get_value ref (KSymbol Symbol_toStringTag) in
                  let* ref_name := to_string ref_tag in
                  let name := ref_name +:+ "<" +:+ paramNames +:+ ">" in
                  let* _ := Reflect_defineProperty type (KSymbol Symbol_toStringTag)
                              (hidden (VString name)) in
                  let* _ := Names_set (VString name) type in
                  let* _ := Object_assign type
                              [("module", match m with Some m => VString m | None => VUndefined end);
                               ("path", VString p)] in
                  ret type
            | None => ret result
            end = ret result).
  { intros result. destruct tp as [tp|]; [rewrite Hplain|]; reflexivity. }
  cbv beta iota zeta in Hrun, Htail |- *.
  set (key := match m with
              | Some m0 => if String.eqb m0 "" then p else m0 +:+ "::" +:+ p
              | None => p
              end) in *.
  set (mv := match m with Some m0 => VString m0 | None => VUndefined end) in *.
  destruct (assoc_get (VString name) (Names s)) as [t|] eqn:Hn.
  { (* the name is in [Names] *)
    destruct (Names_has_some _ _ _ Hn) as [Hhas Hget].
    rewrite (bind_ok _ _ _ _ _ Hhas), Hget in Hrun. injection Hrun as <- <-.
    rewrite (bind_ok _ _ _ _ _ Hhas). exact Hget. }
  rewrite (bind_ok _ _ _ _ _ (Names_has_none _ _ Hn)) in Hrun.
  pose proof (PrimitiveNames_get_state name s) as Hstate.
  destruct (PrimitiveNames_get name s) as [[v|e] s0] eqn:Hprim; cbn [snd] in Hstate;
    subst s0; [|rewrite (bind_throw _ _ _ _ _ Hprim) in Hrun; discriminate].
  rewrite (bind_ok _ _ _ _ _ Hprim) in Hrun.
  destruct (truthy v) eqn:Hv.
  { (* an entry of the table *)
    injection Hrun as <- <-.
    rewrite (bind_ok _ _ _ _ _ (Names_has_none _ _ Hn)), (bind_ok _ _ _ _ _ Hprim), Hv.
    reflexivity. }
  destruct (named_frame s (VString key)) as (t & s' & Hnamed & Hkey & Hothers & Hprims & Hheap).
  rewrite (bind_ok _ _ _ _ _ Hnamed) in Hrun.
  apply bind_inv in Hrun. destruct Hrun as ([] & sb & Hassign & Hrun).
  rewrite Htail in Hrun. injection Hrun as <- <-.
  destruct (Object_assign_module_path _ _ _ _ _ Hassign) as (Hagain & HNames & HPrims & Hframe).
  assert (Hkey' : assoc_get (VString key) (Names sb) = Some t) by (rewrite HNames; exact Hkey).
  assert (Hfinish :
    bind (named (VString key))
      (fun result =>
         bind (Object_assign result [("module", mv); ("path", VString p)])
           (fun _ => ret result)) sb = (Ok (VObject t), sb)).
  { rewrite (bind_ok _ _ _ _ _ (named_known _ _ _ Hkey')), (bind_ok _ _ _ _ _ Hagain).
    reflexivity. }
  destruct (decide (name = key)) as [Heq|Hne].
  { (* [Names] holds the type under the name itself *)
    rewrite <- Heq in Hkey'. destruct (Names_has_some _ _ _ Hkey') as [Hhas Hget].
    rewrite (bind_ok _ _ _ _ _ Hhas). exact Hget. }
  assert (Hn' : assoc_get (VString name) (Names sb) = None).
  { rewrite HNames, Hothers; [exact Hn | congruence]. }
  rewrite (bind_ok _ _ _ _ _ (Names_has_none _ _ Hn')).
  assert (Hmodule : name <> "module").
  { intros ->. rewrite split_name_module in Hsplit. injection Hsplit as <- <- <-.
    apply Hne. reflexivity. }
  assert (Hpath : name <> "path").
  { intros ->. rewrite split_name_path in Hsplit. injection Hsplit as <- <- <-.
    apply Hne. reflexivity. }
  assert (Hprim' : PrimitiveNames_get name sb = (Ok v, sb)).
  { apply (PrimitiveNames_get_agrees name s); [|exact Hprim].
    apply (heap_agrees_trans _ _ (heap s')); [apply Hheap|].
    apply Hframe; congruence. }
  rewrite (bind_ok _ _ _ _ _ Hprim'), Hv.
  etransitivity; [|exact Hfinish].
  unfold bind. destruct (named (VString key) sb) as [[r|e] s2]; [|reflexivity].
  destruct (Object_assign r _ s2) as [[u|e] s3]; [|reflexivity].
  rewrite Htail. reflexivity.
Qed.

(** X23. A name without a parameter list is interned: when [parse]
    returns a type for it, asking again right away returns the same
    type and changes nothing, also when the name is not the key under
    which [Names] holds the type (as for ["::Foo"], held under
    ["Foo"]). *)
Theorem parse_plain_name_again (s s1 : state) (name : string) (T : value) :
  plain_name name = true ->
  parse name s = (Ok T, s1) -> parse name s1 = (Ok T, s1).
Proof.
  intros Hplain. unfold parse. cbn [parse_fuel]. apply parse_with_plain_again, Hplain.
Qed.

Lemma parse_plain_name_again_witness :
  let s1 := state_after (parse "::Foo") initial in
  parse "::Foo" s1 = (Ok (VObject 33), s1).
Proof.
  intros s1.
  refine (parse_plain_name_again initial s1 "::Foo" (VObject 33) _ _);
    vm_compute; reflexivity.
Defined.

(** ** Names with a parameter list *)

(** The twelve names of the table have no parameter list. *)
Lemma PrimitiveNames_plain (name : string) (p : PrimitivesModule) :
  plain_name name = false -> assoc_get name (PrimitiveNames p) = None.
Proof.
  intros Hplain. unfold PrimitiveNames. cbn [assoc_get].
  repeat match goal with
         | |- context [decide (name = ?n)] =>
             destruct (decide (name = n)) as [->|_]; [vm_compute in Hplain; discriminate|]
         end.
  reflexivity.
Qed.

(** X24. A name with a parameter list that neither [Names] nor
    [Object.prototype] knows: the type that [parse] returns for it is
    held by [Names] afterwards under a display name of the form
    [base<params>], and parsing that display name right away returns
    that very type and changes nothing. *)
Theorem parse_generic_registers_display_name (s s1 : state) (name : string) (T : value) :
  plain_name name = false ->
  assoc_get (VString name) (Names s) = None ->
  get_object (heap s) Object_prototype (KString name) = Ok VUndefined ->
  parse name s = (Ok T, s1) ->
  exists (base params : string) (l : loc),
    T = VObject l
    /\ assoc_get (VString (base +:+ "<" +:+ params +:+ ">")) (Names s1) = Some l
    /\ parse (base +:+ "<" +:+ params +:+ ">") s1 = (Ok T, s1).
Proof.
  intros Hplain Hn Hproto Hrun.
  assert (Hprim : PrimitiveNames_get name s = (Ok VUndefined, s)).
  { unfold PrimitiveNames_get, PrimitiveNames_at_load, inherited_member.
    rewrite (PrimitiveNames_plain _ _ Hplain), Hproto.
    destruct (String.eqb name "__proto__") eqn:Hname; [|reflexivity].
    apply String.eqb_eq in Hname. subst name. vm_compute in Hplain. discriminate. }
  unfold plain_name in Hplain.
  unfold parse in Hrun. cbn [parse_fuel] in Hrun. unfold parse_with in Hrun.
  destruct (split_name name) as [[m p] tp] eqn:Hsplit. cbn [snd] in Hplain.
  destruct tp as [tp|]; [|discriminate]. cbv beta iota zeta in Hrun.
  rewrite (bind_ok _ _ _ _ _ (Names_has_none _ _ Hn)) in Hrun.
  rewrite (bind_ok _ _ _ _ _ Hprim) in Hrun. cbn [truthy] in Hrun.
  apply bind_inv in Hrun. destruct Hrun as (result & s2 & _ & Hrun).
  apply bind_inv in Hrun. destruct Hrun as ([] & s3 & _ & Hrun).
  rewrite Hplain in Hrun.
  apply bind_inv in Hrun. destruct Hrun as (type0 & s4 & _ & Hrun).
  apply bind_inv in Hrun. destruct Hrun as (type_args & s5 & _ & Hrun).
  apply bind_inv in Hrun. destruct Hrun as (items & s6 & _ & Hrun).
  apply bind_inv in Hrun. destruct Hrun as (tags & s7 & _ & Hrun).
  apply bind_inv in Hrun. destruct Hrun as (paramNames & s8 & _ & Hrun).
  apply bind_inv in Hrun. destruct Hrun as (ref & s9 & _ & Hrun).
  apply bind_inv in Hrun. destruct Hrun as (ref_tag & s10 & _ & Hrun).
  apply bind_inv in Hrun. destruct Hrun as (ref_name & s11 & _ & Hrun).
  apply bind_inv in Hrun. destruct Hrun as (defined & s12 & _ & Hrun).
  apply bind_inv in Hrun. destruct Hrun as ([] & s13 & Hset & Hrun).
  apply bind_inv in Hrun. destruct Hrun as ([] & s14 & Hassign & Hrun).
  injection Hrun as <- <-.
  unfold Names_set in Hset. destruct type0 as [| | | | | | |l]; try discriminate.
  injection Hset as <-.
  pose proof (Object_assign_Names (VObject l)
                [("module", match m with Some m0 => VString m0 | None => VUndefined end);
                 ("path", VString p)]
                (State (heap s12) (next_symbol s12)
                   (assoc_set (VString (ref_name +:+ "<" +:+ paramNames +:+ ">")) l (Names s12))
                   (Primitives s12))) as HNames.
  rewrite Hassign in HNames. cbn [snd Names] in HNames.
  assert (Hheld : assoc_get (VString (ref_name +:+ "<" +:+ paramNames +:+ ">")) (Names s14)
                  = Some l) by (rewrite HNames; apply assoc_get_set_eq).
  exists ref_name, paramNames, l. split_and!; [reflexivity | exact Hheld |].
  unfold parse. cbn [parse_fuel]. unfold parse_with.
  destruct (Names_has_some _ _ _ Hheld) as [Hhas Hget].
  rewrite (bind_ok _ _ _ _ _ Hhas). exact Hget.
Qed.

Lemma parse_generic_registers_display_name_witness :
  let s1 := state_after (parse "Box<number, Foo>") initial in
  exists (base params : string) (l : loc),
    VObject 39 = VObject l
    /\ assoc_get (VString (base +:+ "<" +:+ params +:+ ">")) (Names s1) = Some l
    /\ parse (base +:+ "<" +:+ params +:+ ">") s1 = (Ok (VObject 39), s1).
Proof.
  intros s1.
  refine (parse_generic_registers_display_name initial s1 "Box<number, Foo>" (VObject 39)
            _ _ _ _); vm_compute; reflexivity.
Defined.

(** ** References that [type] accepts *)

Lemma restore_own (s : state) (l : loc) (o : object) :
  heap s !! l = Some o -> exists c, restore (VObject l) s = (Ok c, s).
Proof.
  intros Hl. destruct (own_property o (KSymbol CachedType)) as [q|] eqn:Hq.
  - exists (p_value q). apply (restore_entry s l o q Hl Hq).
  - exists VUndefined. apply (restore_none s l o Hl Hq).
Qed.

Lemma tests_on_function (s : state) (f : loc) (o : object) :
  heap s !! f = Some o -> o_kind o = Callable ->
  isTyped (VObject f) s = (Ok false, s)
  /\ isType (VObject f) s = (Ok false, s)
  /\ isClass (VObject f) s = (Ok true, s).
Proof.
  intros Hl Hkind. pose proof (typeof_callable _ _ _ Hl Hkind) as Htypeof.
  unfold isTyped, isType, isClass, bind, read, ret. rewrite Htypeof. auto.
Qed.

(** X25. On a function, [type] and [typeOf] are one and the same: they
    return the same result and leave the same state, whether the
    function carries a cached type or not. *)
Theorem type_of_function_is_typeOf (s : state) (f : loc) (o : object) :
  heap s !! f = Some o -> o_kind o = Callable ->
  type (VObject f) s = typeOf (VObject f) s.
Proof.
  intros Hl Hkind. pose proof (typeof_callable _ _ _ Hl Hkind) as Htypeof.
  destruct (restore_own s f o Hl) as (c & Hrestore).
  destruct (tests_on_function s f o Hl Hkind) as (HisTyped & HisType & HisClass).
  unfold type, type_with.
  rewrite (bind_ok _ _ _ _ _ HisTyped). cbv beta iota.
  rewrite (bind_ok _ _ _ _ _ HisType). cbv beta iota.
  rewrite (bind_ok _ _ _ _ _ HisClass). cbv beta iota.
  unfold typeOf. rewrite (bind_ok _ _ _ _ _ HisType). cbv beta iota.
  unfold bind at 1, read at 1. rewrite Htypeof. cbn [String.eqb Ascii.eqb Bool.eqb].
  rewrite (bind_ok _ _ _ _ _ Hrestore).
  destruct (truthy c) eqn:Hc; [|reflexivity].
  unfold getClassType. rewrite (bind_ok _ _ _ _ _ Hrestore), Hc. reflexivity.
Qed.

Lemma type_of_function_is_typeOf_witness :
  let s := state_after (declare_class "Foo") initial in
  type (VObject 33) s = typeOf (VObject 33) s.
Proof.
  intros s.
  refine (type_of_function_is_typeOf s 33 (builtin_function "Foo" [prototype_of 34]) _ _);
    vm_compute; reflexivity.
Defined.

(** X26. An object that is no function and whose [Type] member is a
    type is a typed reference: [type] returns that member and changes
    nothing, whatever else the object is. *)
Theorem type_of_typed_object (s : state) (l : loc) (o : object) (t : value) :
  heap s !! l = Some o -> o_kind o <> Callable ->
  get_object (heap s) l (KString "Type") = Ok t ->
  isType t s = (Ok true, s) ->
  type (VObject l) s = (Ok t, s).
Proof.
  intros Hl Hkind Hget Ht.
  pose proof (typeof_not_callable _ _ _ Hl Hkind) as Htypeof.
  assert (HisTyped : isTyped (VObject l) s = (Ok true, s)).
  { unfold isTyped. unfold bind at 1, read at 1. rewrite Htypeof.
    cbn [String.eqb Ascii.eqb Bool.eqb]. unfold bind, get_value. rewrite Hget. exact Ht. }
  unfold type, type_with. rewrite (bind_ok _ _ _ _ _ HisTyped). cbv beta iota.
  unfold get_value. rewrite Hget. reflexivity.
Qed.

(** An object literal with the member [Type: Primitives.Number]. *)
Lemma type_of_typed_object_witness :
  let typed := [(KString "Type", Property (P_Number (Primitives initial)) true true true)] in
  let s := state_after (new_object typed) initial in
  type (VObject 33) s = (Ok (P_Number (Primitives initial)), s).
Proof.
  intros typed s.
  refine (type_of_typed_object s 33 (Object (Some Object_prototype) Ordinary true typed)
            (P_Number (Primitives initial)) _ _ _ _);
    first [discriminate | vm_compute; reflexivity].
Defined.

(** X27. A type whose [Type] member is no type is its own reference:
    [type] returns it and changes nothing. *)
Theorem type_of_a_type (s : state) (l : loc) (o : object) (t : value) :
  heap s !! l = Some o -> o_kind o <> Callable ->
  get_object (heap s) l (KString "Type") = Ok t ->
  isType t s = (Ok false, s) ->
  isType (VObject l) s = (Ok true, s) ->
  type (VObject l) s = (Ok (VObject l), s).
Proof.
  intros Hl Hkind Hget Ht Htype.
  pose proof (typeof_not_callable _ _ _ Hl Hkind) as Htypeof.
  assert (HisTyped : isTyped (VObject l) s = (Ok false, s)).
  { unfold isTyped. unfold bind at 1, read at 1. rewrite Htypeof.
    cbn [String.eqb Ascii.eqb Bool.eqb]. unfold bind, get_value. rewrite Hget. exact Ht. }
  unfold type, type_with. rewrite (bind_ok _ _ _ _ _ HisTyped). cbv beta iota.
  rewrite (bind_ok _ _ _ _ _ Htype). reflexivity.
Qed.

(** The type that [create] makes. *)
Lemma type_of_a_type_witness :
  let s := state_after create initial in
  type (VObject 33) s = (Ok (VObject 33), s).
Proof.
  intros s.
  refine (type_of_a_type s 33 (type_object (next_symbol initial)) VUndefined _ _ _ _ _);
    first [discriminate | vm_compute; reflexivity].
Defined.

(** ** Names that [Object.prototype] answers *)

(** X28. The table of primitive names is an object literal, so a name
    that neither [Names] nor the table holds is looked up on
    [Object.prototype]: when that has a truthy member of the name,
    [parse] returns the member, whatever it is, and changes nothing. *)
Theorem parse_returns_inherited_member (s : state) (name : string) (v : value) :
  assoc_get (VString name) (Names s) = None ->
  assoc_get name (PrimitiveNames (Primitives s)) = None ->
  get_object (heap s) Object_prototype (KString name) = Ok v ->
  truthy v = true ->
  parse name s = (Ok v, s).
Proof.
  intros Hn Htable Hget Hv. unfold parse. cbn [parse_fuel]. unfold parse_with.
  rewrite (bind_ok _ _ _ _ _ (Names_has_none _ _ Hn)). cbv beta iota.
  assert (Hprim : PrimitiveNames_get name s = (Ok v, s)).
  { unfold PrimitiveNames_get, PrimitiveNames_at_load, inherited_member.
    rewrite (PrimitiveNames_keys _ _ no_primitives Htable), Hget.
    destruct v; try reflexivity. discriminate. }
  rewrite (bind_ok _ _ _ _ _ Hprim), Hv. reflexivity.
Qed.

(** [parse("toString")] in the loaded module is the function
    [Object.prototype.toString], which is no type. *)
Lemma parse_returns_inherited_member_witness :
  parse "toString" initial = (Ok (VObject 17), initial)
  /\ isType (VObject 17) initial = (Ok false, initial)
  /\ typeof (heap initial) (VObject 17) = "function".
Proof.
  split_and!.
  - refine (parse_returns_inherited_member initial "toString" (VObject 17) _ _ _ _);
      vm_compute; reflexivity.
  - vm_compute. reflexivity.
  - vm_compute. reflexivity.
Defined.

(** ** Termination of [parse], and what every call keeps *)

(** X29. [parse] terminates: its recursion through [complex] and [type]
    is on strictly shorter names, so a depth above the length of the
    name is never used up, and any such bound gives the same result and
    state. *)
Theorem parse_terminates (fuel : nat) (name : string) (s : state) :
  String.length name < fuel ->
  result_of (parse name) s <> Throw OutOfFuel
  /\ parse_fuel fuel name s = parse name s.
Proof.
  intros Hlen. destruct (parse_fuel_enough fuel name s Hlen) as [Hsame Hfuel].
  split; [exact Hfuel | exact Hsame].
Qed.

Lemma parse_terminates_witness :
  result_of (parse "Map<Array<string>, number>") initial <> Throw OutOfFuel
  /\ parse_fuel 100 "Map<Array<string>, number>" initial
     = parse "Map<Array<string>, number>" initial.
Proof.
  apply (parse_terminates 100 "Map<Array<string>, number>" initial). vm_compute. lia.
Defined.

(** X30. No sequence of calls of the exported functions, returning or
    throwing, removes an object, changes the prototype, the kind or the
    extensibility of one, changes or removes an own property that is
    neither writable nor configurable, takes a name out of [Names], or
    changes the primitives.  In particular an object that owns a
    signature as [create] writes it keeps it: [hashOf] returns the same
    symbol afterwards. *)
Theorem exported_calls_extend_the_state (cs : list call) (s : state) :
  state_extends s (run_calls cs s)
  /\ forall l o q,
       heap s !! l = Some o ->
       own_property o (KSymbol TypeSignature) = Some (hidden q) ->
       hashOf (VObject l) (run_calls cs s) = (Ok q, run_calls cs s).
Proof.
  pose proof (run_calls_extends cs s) as Hext. split; [exact Hext|].
  intros l o q Hl Hq.
  destruct (hidden_property_kept s (run_calls cs s) l o Hext Hl) as (o' & Hl' & Hkeep).
  apply (hashOf_own _ l o' (hidden q) Hl'), Hkeep, Hq.
Qed.

(** The first type of the loaded module keeps its signature through a
    [type], a [store] on it and a [register]. *)
Lemma exported_calls_extend_the_state_witness :
  let cs := [Call_type (VString "Foo<Bar>"); Call_store (VObject 22) VNull;
             Call_register "string" (VObject host_Object)] in
  hashOf (VObject 22) (run_calls cs initial) = (Ok (VSymbol 5), run_calls cs initial).
Proof.
  intros cs.
  refine (proj2 (exported_calls_extend_the_state cs initial) 22 _ (VSymbol 5) _ _);
    reflexivity.
Defined.

(** ** Two functions of one name *)

Lemma isType_agrees (s s' : state) (l : loc) :
  heap_agrees_on (KSymbol TypeSignature) (heap s) (heap s') ->
  isType (VObject l) s = (Ok true, s) -> isType (VObject l) s' = (Ok true, s').
Proof.
  intros Hag. unfold isType, bind, read, ret, get_value.
  destruct (heap s !! l) as [o|] eqn:Hl.
  - rewrite (typeof_agrees _ _ _ _ _ Hag Hl).
    destruct (String.eqb (typeof (heap s) (VObject l)) "object"); [|discriminate].
    destruct (get_object (heap s) l (KSymbol TypeSignature)) as [v|e] eqn:Hget;
      [|discriminate].
    rewrite (get_object_agrees _ _ _ _ _ Hag Hget). intros [= ->]. reflexivity.
  - unfold typeof at 1. rewrite Hl. cbn [String.eqb Ascii.eqb Bool.eqb].
    unfold get_object at 1. cbn [get_from]. rewrite Hl. discriminate.
Qed.

(** [getClassType] of a function without a cached type whose name
    [Names] does not hold: the new type is the next object of the heap,
    as [named] makes it. *)
Lemma getClassType_new_name (s : state) (f : loc) (o : object) (n : string) :
  heap s !! f = Some o ->
  o_kind o = Callable ->
  own_property o (KSymbol CachedType) = None ->
  get_object (heap s) f (KString "name") = Ok (VString n) ->
  n <> "" ->
  assoc_get (VString n) (Names s) = None ->
  exists s1,
    getClassType (VObject f) s = (Ok (VObject (length (heap s))), s1)
    /\ heap s1 !! length (heap s) = Some (named_object (next_symbol s) (VString n)).
Proof.
  intros Hl Hkind Hnone Hname Hn Hnew.
  pose proof (typeof_callable _ _ _ Hl Hkind) as Htypeof.
  assert (Hextract : extractName (VObject f) s = (Ok (VString n), s)).
  { unfold extractName, bind, read, ret. rewrite Htypeof.
    cbn -[get_object typeof]. rewrite Htypeof. cbn -[get_object].
    rewrite Hname. reflexivity. }
  pose proof (named_fresh_spec s (VString n) Hnew) as Hnamed.
  set (s0 := State _ _ _ _) in Hnamed.
  assert (Hl0 : heap s0 !! f = Some o) by (apply lookup_before_end, Hl).
  destruct (store_spec s0 f o (VObject (length (heap s))) Hl0) as (o' & Hstore & _).
  eexists. split.
  - unfold getClassType. rewrite (bind_ok _ _ _ _ _ (restore_none s f o Hl Hnone)).
    cbn [truthy negb]. rewrite (bind_ok _ _ _ _ _ Hextract), (truthy_string n Hn).
    rewrite (bind_ok _ _ _ _ _ Hnamed), (bind_ok _ _ _ _ _ Hstore). reflexivity.
  - cbn [heap]. rewrite list_lookup_insert_ne.
    + apply lookup_at_end.
    + apply lookup_lt_Some in Hl. lia.
Qed.

(** C10. Two different functions [f] and [g] that have no cached type
    and the same non-empty [name]: [typeOf(f)] and then [typeOf(g)]
    both return, and they return one and the same object, which is the
    entry of [Names] under that name afterwards.  When [Names] held an
    entry under the name before, it is that entry, and a type if the
    entry was one; when it held none, it is a new type whose display
    name is the name. *)
Theorem typeOf_same_name_same_type (s : state) (f g : loc) (fo go : object) (n : string) :
  f <> g ->
  heap s !! f = Some fo -> o_kind fo = Callable ->
  heap s !! g = Some go -> o_kind go = Callable ->
  own_property fo (KSymbol CachedType) = None ->
  own_property go (KSymbol CachedType) = None ->
  get_object (heap s) f (KString "name") = Ok (VString n) ->
  get_object (heap s) g (KString "name") = Ok (VString n) ->
  n <> "" ->
  exists T s1 s2,
    typeOf (VObject f) s = (Ok (VObject T), s1)
    /\ typeOf (VObject g) s1 = (Ok (VObject T), s2)
    /\ assoc_get (VString n) (Names s2) = Some T
    /\ match assoc_get (VString n) (Names s) with
       | Some T0 =>
           T = T0
           /\ (isType (VObject T0) s = (Ok true, s) ->
               isType (VObject T) s2 = (Ok true, s2))
       | None =>
           T = length (heap s)
           /\ isType (VObject T) s2 = (Ok true, s2)
           /\ nameOf (VObject T) s2 = (Ok (VString n), s2)
       end.
Proof.
  intros Hfg Hf Hfk Hg Hgk Hfc Hgc Hfn Hgn Hn.
  destruct (getClassType_unresolved s f fo n Hf Hfk Hfc Hfn Hn)
    as (T & s1 & Hrun1 & Hnames1 & Hold1 & Hframe1 & Hagree1).
  assert (Hg1 : heap s1 !! g = Some go) by (apply Hframe1; [congruence | exact Hg]).
  assert (Hgn1 : get_object (heap s1) g (KString "name") = Ok (VString n)).
  { assert (Hag : heap_agrees_on (KString "name") (heap s) (heap s1))
      by (apply Hagree1; discriminate).
    eapply get_object_agrees; [exact Hag | exact Hgn]. }
  destruct (getClassType_unresolved s1 g go n Hg1 Hgk Hgc Hgn1 Hn)
    as (T' & s2 & Hrun2 & Hnames2 & Hold2 & Hframe2 & Hagree2).
  assert (T' = T) by (apply Hold2; assumption). subst T'.
  exists T, s1, s2. split_and!.
  - rewrite (typeOf_unresolved_function s f fo Hf Hfk Hfc). exact Hrun1.
  - rewrite (typeOf_unresolved_function s1 g go Hg1 Hgk Hgc). exact Hrun2.
  - exact Hnames2.
  - destruct (assoc_get (VString n) (Names s)) as [T0|] eqn:Hbefore.
    + split; [apply Hold1; reflexivity|]. rewrite <- (Hold1 T0 eq_refl).
      intros Htype. apply (isType_agrees s1); [apply Hagree2; discriminate|].
      apply (isType_agrees s); [apply Hagree1; discriminate | exact Htype].
    + destruct (getClassType_new_name s f fo n Hf Hfk Hfc Hfn Hn Hbefore)
        as (s1' & Hrun1' & Hnew).
      rewrite Hrun1 in Hrun1'. injection Hrun1' as -> <-.
      assert (Hnew2 : heap s2 !! length (heap s)
                      = Some (named_object (next_symbol s) (VString n))).
      { apply Hframe2; [|exact Hnew]. apply lookup_lt_Some in Hg. lia. }
      split_and!.
      * reflexivity.
      * exact (isType_own s2 _ _ (hidden (VSymbol (next_symbol s))) Hnew2
                 ltac:(discriminate) eq_refl).
      * exact (nameOf_own s2 _ _ (hidden (VString n)) Hnew2 eq_refl).
Qed.

(** In the loaded module: two classes that are both called [Foo]. *)
Lemma typeOf_same_name_same_type_witness :
  let s := state_after (let* _ := declare_class "Foo" in declare_class "Foo") initial in
  exists T s1 s2,
    typeOf (VObject 33) s = (Ok (VObject T), s1)
    /\ typeOf (VObject 35) s1 = (Ok (VObject T), s2)
    /\ assoc_get (VString "Foo") (Names s2) = Some T
    /\ match assoc_get (VString "Foo") (Names s) with
       | Some T0 =>
           T = T0
           /\ (isType (VObject T0) s = (Ok true, s) ->
               isType (VObject T) s2 = (Ok true, s2))
       | None =>
           T = length (heap s)
           /\ isType (VObject T) s2 = (Ok true, s2)
           /\ nameOf (VObject T) s2 = (Ok (VString "Foo"), s2)
       end.
Proof.
  intros s.
  refine (typeOf_same_name_same_type s 33 35
            (builtin_function "Foo" [prototype_of 34])
            (builtin_function "Foo" [prototype_of 36]) "Foo" _ _ _ _ _ _ _ _ _ _).
  - lia.
  - vm_compute. reflexivity.
  - reflexivity.
  - vm_compute. reflexivity.
  - reflexivity.
  - reflexivity.
  - reflexivity.
  - vm_compute. reflexivity.
  - vm_compute. reflexivity.
  - discriminate.
Defined.
